(** * pyutils: process execution with retries, and the stopwatch it times with

    A shallow embedding of [pyutils/timeutils.py] (class [StopWatch]) and of
    [pyutils/processutils.py] (functions [execute] and [retry]).

    Conventions of the embedding
    - Python [int] is [Z]; the keyword-argument dictionary of [execute] is a
      [gmap string value]; [dict.pop(k, d)] is a lookup followed by [delete].
    - Clock readings ([time.time()]) are exact rationals [Q].
    - Exceptions are values of [exn]; a Python computation that touches the
      operating system runs in the state-and-exception monad [M], whose
      state holds the closure cell [shared_data], the stopwatch, and a trace
      of the observable actions (process creations, sleeps, timer actions).
    - What the operating system answers (how a spawned command ends, whether
      a timer expires first, what [random.randint] draws, what the clock
      reads) is a [world] of oracles indexed by the number of the request.
    - A name that a function reads and that nothing in the module binds
      ([Split] in [timeutils], [sig_end] and [_] in [processutils]) raises
      [NameError] where it is read, as the interpreter does.
    - [LOG] calls with a level that is an [int] do not touch control flow
      and are not modelled; [loglevel] is taken to be one.  The local
      [default_raise_timeout] of [execute] is never read and is left out,
      and the command words are the strings [str(c)] gives.
    - Numbers passed to [execute] and [retry] are Python [int]s; floats are
      outside the embedding. *)

From Stdlib Require Import ZArith QArith Lia Lqa List Ascii String.
From stdpp Require Import gmap strings list fin_maps pretty.

Local Open Scope string_scope.
Local Open Scope Z_scope.
Local Open Scope list_scope.

(** ** Python values and exceptions *)

(** The values a keyword argument of [execute] is given in this embedding. *)
Inductive value :=
| VNone
| VBool (b : bool)
| VInt (n : Z)
| VStr (s : string)
| VList (l : list Z).

(** Python truthiness ([if v:]). *)
Definition truthy (v : value) : bool :=
  match v with
  | VNone => false
  | VBool b => b
  | VInt n => negb (n =? 0)
  | VStr s => negb (String.eqb s "")
  | VList l => match l with [] => false | _ => true end
  end.

(** The number a value stands for in arithmetic and comparisons ([bool] is a
    subclass of [int]); [None] where Python 3 raises [TypeError]. *)
Definition as_num (v : value) : option Z :=
  match v with
  | VInt n => Some n
  | VBool b => Some (if b then 1 else 0)
  | _ => None
  end.

(** [x in v] for an integer [x]; [None] where Python raises [TypeError]. *)
Definition py_in (x : Z) (v : value) : option bool :=
  match v with
  | VList l => Some (existsb (Z.eqb x) l)
  | _ => None
  end.

Inductive exn :=
| ValueError (msg : string)
| RuntimeError (msg : string)
| TypeError
| NameError (name : string)
| OSError (errno : Z)
| UnknownArgumentError (unknown : gmap string value)
| ProcessExecutionError (stdout stderr : string) (exit_code : Z)
                        (cmd : list string).

(** The outcome of a Python call: a value or a raised exception.  [Diverged]
    marks a loop model that ran out of fuel; the fuel handed out by the
    entry points is shown to suffice. *)
Inductive res (A : Type) :=
| Ok (a : A)
| Raise (e : exn)
| Diverged.
Arguments Ok {A} a.
Arguments Raise {A} e.
Arguments Diverged {A}.

(** ** timeutils.StopWatch *)

Module StopWatch.

Local Open Scope Q_scope.

Inductive state := STARTED | STOPPED.

(** What [split()] takes the entries of [_splits] to be: it reads their
    [elapsed].  The class [Split] that would build one is bound nowhere in
    the module. *)
Record Split := { split_elapsed : Q; split_length : Q }.

Record t := {
  _duration : option Q;
  _started_at : option Q;
  _stopped_at : option Q;
  _state : option state;
  _splits : list Split
}.

(** Python's [max(a, b)]: the first of the largest arguments. *)
Definition py_max (a b : Q) : Q := if Qle_bool b a then a else b.

Definition is_started (w : t) : bool :=
  match _state w with Some STARTED => true | _ => false end.

Definition is_stopped (w : t) : bool :=
  match _state w with Some STOPPED => true | _ => false end.

(** [StopWatch(duration)].  The message omits the formatted duration. *)
Definition __init__ (duration : option Q) : res t :=
  match duration with
  | Some d =>
      if negb (Qle_bool 0 d)
      then Raise (ValueError "Duration must be greater or equal to zero")
      else Ok {| _duration := duration; _started_at := None;
                 _stopped_at := None; _state := None; _splits := [] |}
  | None =>
      Ok {| _duration := None; _started_at := None;
            _stopped_at := None; _state := None; _splits := [] |}
  end.

(** [start()]; [now] is what the clock reads if it is asked. *)
Definition start (now : Q) (w : t) : t :=
  if is_started w then w
  else {| _duration := _duration w; _started_at := Some now;
          _stopped_at := None; _state := Some STARTED; _splits := [] |}.

(** [stop()]. *)
Definition stop (now : Q) (w : t) : res t :=
  if is_stopped w then Ok w
  else if negb (is_started w)
  then Raise (RuntimeError "Can not stop a stopwatch that has not been started")
  else Ok {| _duration := _duration w; _started_at := _started_at w;
             _stopped_at := Some now; _state := Some STOPPED;
             _splits := _splits w |}.

(** [restart()]; the clock is read once by [stop] (when the watch runs)
    and once by [start]. *)
Definition restart (now_stop now_start : Q) (w : t) : res t :=
  if is_started w then
    match stop now_stop w with
    | Ok w' => Ok (start now_start w')
    | Raise e => Raise e
    | Diverged => Diverged
    end
  else Ok (start now_start w).

(** [resume()]. *)
Definition resume (w : t) : res t :=
  if is_stopped w
  then Ok {| _duration := _duration w; _started_at := _started_at w;
             _stopped_at := _stopped_at w; _state := Some STARTED;
             _splits := _splits w |}
  else Raise (RuntimeError "Can not resume a stopwatch that has not been stopped").

(** [_delta_seconds(earlier, later)]; a [None] operand is a [TypeError]. *)
Definition _delta_seconds (earlier later : option Q) : res Q :=
  match earlier, later with
  | Some e, Some l => Ok (py_max 0 (l - e))
  | _, _ => Raise TypeError
  end.

(** [elapsed(maximum=None)]. *)
Definition elapsed (now : Q) (maximum : option Q) (w : t) : res Q :=
  match _state w with
  | None =>
      Raise (RuntimeError
        "Can not get the elapsed time of a stopwatch if it has not been started/stopped")
  | Some s =>
      let delta :=
        match s with
        | STOPPED => _delta_seconds (_started_at w) (_stopped_at w)
        | STARTED => _delta_seconds (_started_at w) (Some now)
        end in
      match delta with
      | Ok e =>
          match maximum with
          | Some m => if negb (Qle_bool e m) then Ok (py_max 0 m) else Ok e
          | None => Ok e
          end
      | other => other
      end
  end.

(** The global [Split], which [split()] calls (line 68): nothing binds it,
    so the lookup raises [NameError]. *)
Definition Split_class : res (Q -> Q -> Split) := Raise (NameError "Split").

(** [split()]. *)
Definition split (now : Q) (w : t) : res (Split * t) :=
  if is_started w then
    match elapsed now None w with
    | Ok e =>
        let length :=
          match last (_splits w) with
          | Some prev => _delta_seconds (Some (split_elapsed prev)) (Some e)
          | None => Ok e
          end in
        match length with
        | Ok len =>
            match Split_class with
            | Ok mk =>
                let s := mk e len in
                Ok (s, {| _duration := _duration w;
                          _started_at := _started_at w;
                          _stopped_at := _stopped_at w; _state := _state w;
                          _splits := _splits w ++ [s] |})
            | Raise e' => Raise e'
            | Diverged => Diverged
            end
        | Raise e' => Raise e'
        | Diverged => Diverged
        end
    | Raise e' => Raise e'
    | Diverged => Diverged
    end
  else Raise (RuntimeError "Can not create a split time of a stopwatch if it has not been started or if it has been stopped").

(** [__enter__()]. *)
Definition __enter__ (now : Q) (w : t) : t := start now w.

(** [__exit__(type, value, traceback)]: [stop()] with its [RuntimeError]
    swallowed. *)
Definition __exit__ (now : Q) (w : t) : t :=
  match stop now w with
  | Ok w' => w'
  | _ => w
  end.

(** [leftover(return_none=False)]; [None] of Python is [Ok None]. *)
Definition leftover (now : Q) (return_none : bool) (w : t) : res (option Q) :=
  if negb (is_started w) then
    Raise (RuntimeError
      "Can not get the leftover time of a stopwatch that has not been started")
  else
    match _duration w with
    | None =>
        if negb return_none then
          Raise (RuntimeError
            "Can not get the leftover time of a watch that has no duration")
        else Ok None
    | Some d =>
        match elapsed now None w with
        | Ok e => Ok (Some (py_max 0 (d - e)))
        | Raise e => Raise e
        | Diverged => Diverged
        end
    end.

(** [expired()]. *)
Definition expired (now : Q) (w : t) : res bool :=
  match _state w with
  | None =>
      Raise (RuntimeError
        "Can not check if a stopwatch has expired if it has not been started/stopped")
  | Some _ =>
      match _duration w with
      | None => Ok false
      | Some d =>
          match elapsed now None w with
          | Ok e => Ok (negb (Qle_bool e d))
          | Raise e => Raise e
          | Diverged => Diverged
          end
      end
  end.

(** [has_started()] and [has_stopped()]. *)
Definition has_started (w : t) : bool := is_started w.

Definition has_stopped (w : t) : bool := is_stopped w.

(** The watches a program can hold: built by the constructor and changed
    only through the mutating methods, with arbitrary clock readings. *)
Inductive reachable : t -> Prop :=
| reach_init d w : __init__ d = Ok w -> reachable w
| reach_start now w : reachable w -> reachable (start now w)
| reach_stop now w w' : reachable w -> stop now w = Ok w' -> reachable w'
| reach_restart n1 n2 w w' :
    reachable w -> restart n1 n2 w = Ok w' -> reachable w'
| reach_resume w w' : reachable w -> resume w = Ok w' -> reachable w'
| reach_split now s w w' :
    reachable w -> split now w = Ok (s, w') -> reachable w'.

(** The timestamps a state needs are there. *)
Definition wf (w : t) : Prop :=
  match _state w with
  | None => True
  | Some STARTED => is_Some (_started_at w)
  | Some STOPPED => is_Some (_started_at w) /\ is_Some (_stopped_at w)
  end.

End StopWatch.

(** ** processutils: the world outside the interpreter *)

(** How one created process ends. *)
Inductive run_outcome :=
| SpawnFails (errno : Z)          (* [subprocess.Popen] raises [OSError] *)
| CommunicateFails (errno : Z)    (* [communicate]/[stdin.close] raises [OSError] *)
| Exits (stdout stderr : string) (returncode : Z).

Record world := {
  run : nat -> run_outcome;       (* the k-th call of [Popen] (from 0) *)
  timer_expires : nat -> bool;    (* does the timer armed for process k expire
                                     before [communicate] returns? *)
  randint : nat -> Z;             (* the k-th [random.randint(20, 200)] *)
  clock : nat -> Q                (* the k-th reading of [now()] *)
}.

(** What an observer of the interpreter sees, in order. *)
Inductive event :=
| EvPopen (proc : nat) (cmd : list string)
| EvSleep (seconds : Z)           (* [time.sleep(wait_for)] in [on_execute] *)
| EvJitter (hundredths : Z)       (* [time.sleep(random.randint(20, 200) / 100.0)] *)
| EvYield                         (* [time.sleep(0)] *)
| EvTimerStart (timer : nat) (proc : nat) (timeout : value)
| EvTimerCancel (timer : nat)
| EvSignal (proc : nat) (signal : Z).

(** [shared_data = [0, None, None]]: the number of the previous attempt, the
    timeout timer, and the process that timed out. *)
Record shared := {
  sd_attempt : Z;
  sd_timer : option nat;
  sd_timed_out : option nat
}.

Record state := {
  shared_data : shared;
  watch : StopWatch.t;
  popen_calls : nat;
  timers_made : nat;
  randint_calls : nat;
  clock_reads : nat;
  trace : list event              (* oldest first *)
}.

Definition set_shared (f : shared -> shared) (st : state) : state :=
  {| shared_data := f (shared_data st); watch := watch st;
     popen_calls := popen_calls st; timers_made := timers_made st;
     randint_calls := randint_calls st; clock_reads := clock_reads st;
     trace := trace st |}.

Definition emit (ev : event) (st : state) : state :=
  {| shared_data := shared_data st; watch := watch st;
     popen_calls := popen_calls st; timers_made := timers_made st;
     randint_calls := randint_calls st; clock_reads := clock_reads st;
     trace := trace st ++ [ev] |}.

Definition put_watch (sw : StopWatch.t) (st : state) : state :=
  {| shared_data := shared_data st; watch := sw;
     popen_calls := popen_calls st; timers_made := timers_made st;
     randint_calls := randint_calls st; clock_reads := clock_reads st;
     trace := trace st |}.

Definition tick_popen (st : state) : state :=
  {| shared_data := shared_data st; watch := watch st;
     popen_calls := S (popen_calls st); timers_made := timers_made st;
     randint_calls := randint_calls st; clock_reads := clock_reads st;
     trace := trace st |}.

Definition tick_timer (st : state) : state :=
  {| shared_data := shared_data st; watch := watch st;
     popen_calls := popen_calls st; timers_made := S (timers_made st);
     randint_calls := randint_calls st; clock_reads := clock_reads st;
     trace := trace st |}.

Definition tick_randint (st : state) : state :=
  {| shared_data := shared_data st; watch := watch st;
     popen_calls := popen_calls st; timers_made := timers_made st;
     randint_calls := S (randint_calls st); clock_reads := clock_reads st;
     trace := trace st |}.

Definition tick_clock (st : state) : state :=
  {| shared_data := shared_data st; watch := watch st;
     popen_calls := popen_calls st; timers_made := timers_made st;
     randint_calls := randint_calls st; clock_reads := S (clock_reads st);
     trace := trace st |}.

(** ** The state-and-exception monad *)

Definition M (A : Type) : Type := state -> res A * state.

Definition ret {A} (a : A) : M A := fun st => (Ok a, st).

Definition raise {A} (e : exn) : M A := fun st => (Raise e, st).

Definition bind {A B} (m : M A) (k : A -> M B) : M B :=
  fun st =>
    match m st with
    | (Ok a, st') => k a st'
    | (Raise e, st') => (Raise e, st')
    | (Diverged, st') => (Diverged, st')
    end.

Notation "'let!' x := m 'in' k" := (bind m (fun x => k))
  (at level 10, x name, m at level 100, k at level 200).

Definition get : M state := fun st => (Ok st, st).

Definition modify (f : state -> state) : M unit := fun st => (Ok tt, f st).

(** [try: m finally: fin]: [fin] runs on every exit of [m]; an exception of
    [fin] replaces the outcome of [m]. *)
Definition try_finally {A} (m : M A) (fin : M unit) : M A :=
  fun st =>
    match m st with
    | (Diverged, st') => (Diverged, st')
    | (r, st') =>
        match fin st' with
        | (Ok _, st'') => (r, st'')
        | (Raise e, st'') => (Raise e, st'')
        | (Diverged, st'') => (Diverged, st'')
        end
    end.

(** [try: m except: handler]. *)
Definition try_except {A} (m : M A) (handler : exn -> M A) : M A :=
  fun st =>
    match m st with
    | (Raise e, st') => handler e st'
    | other => other
    end.

Definition lift_res {A} (r : res A) : M A := fun st => (r, st).

(** Python's [max(0, x)] on integers. *)
Definition py_max0 (x : Z) : Z := if 0 <? x then x else 0.

(** The wait both retry loops compute:
    [exp = backoff_rate ** n; wait_for = max(0, interval * exp)]. *)
Definition backoff_wait (interval backoff_rate n : Z) : Z :=
  let exp := backoff_rate ^ n in
  py_max0 (interval * exp).

(** ** processutils.execute *)

(** What a call of [execute] hands back: the captured [(stdout, stderr)], or
    [None] when control falls off the end of the function. *)
Inductive returned :=
| ReturnedNone
| ReturnedOutput (stdout stderr : string).

(** The local variables [execute] fills from its keyword arguments. *)
Record config := {
  interval : value;
  backoff_rate : value;           (* unbound, and never read, when
                                     [delay_on_retry] was passed: [VNone] *)
  cwd : value;
  process_input : value;
  env_variables : value;
  check_exit_code : value;
  ignore_exit_code : bool;
  delay_on_retry : value;
  attempts : value;
  shell : value;
  loglevel : value;
  preexec_fn : value;
  timeout : value
}.

(** [kwargs.pop(k, d)]. *)
Definition pop (k : string) (d : value) (kwargs : gmap string value)
  : value * gmap string value :=
  (default d (kwargs !! k), delete k kwargs).

(** Lines 146-151: the choice between waiting in [on_execute] and the
    [delay_on_retry] sleep. *)
Definition wait_strategy (kwargs : gmap string value)
  : value * value * gmap string value :=
  match kwargs !! "delay_on_retry" with
  | Some _ => (VNone, VNone, kwargs)
  | None =>
      let kwargs := <["delay_on_retry" := VBool false]> kwargs in
      let '(interval, kwargs) := pop "interval" (VInt 1) kwargs in
      let '(backoff_rate, kwargs) := pop "backoff_rate" (VInt 2) kwargs in
      (interval, backoff_rate, kwargs)
  end.

(** Lines 166-170: [check_exit_code] given as a [bool] or as an [int]. *)
Definition normalize_exit_code (check_exit_code : value) : bool * value :=
  match check_exit_code with
  | VBool b => (negb b, VList [0])
  | VInt n => (false, VList [n])
  | other => (false, other)
  end.

(** Lines 146-173: keyword arguments to local variables, or
    [UnknownArgumentError] when something is left in [kwargs]. *)
Definition parse_kwargs (kwargs : gmap string value) : res config :=
  let '(interval, backoff_rate, kwargs) := wait_strategy kwargs in
  let '(cwd, kwargs) := pop "cwd" VNone kwargs in
  let '(process_input, kwargs) := pop "process_input" VNone kwargs in
  let '(env_variables, kwargs) := pop "env_variables" VNone kwargs in
  let '(check_exit_code, kwargs) := pop "check_exit_code" (VList [0]) kwargs in
  let '(delay_on_retry, kwargs) := pop "delay_on_retry" (VBool true) kwargs in
  let '(attempts, kwargs) := pop "attempts" (VInt 1) kwargs in
  let '(shell, kwargs) := pop "shell" (VBool false) kwargs in
  let '(loglevel, kwargs) := pop "loglevel" (VInt 10) kwargs in
  let '(preexec_fn, kwargs) := pop "preexec_fn" VNone kwargs in
  let '(timeout, kwargs) := pop "timeout" VNone kwargs in
  let '(ignore_exit_code, check_exit_code) :=
    normalize_exit_code check_exit_code in
  if negb (size kwargs =? 0)%nat
  then Raise (UnknownArgumentError kwargs)
  else Ok {| interval := interval; backoff_rate := backoff_rate; cwd := cwd;
             process_input := process_input; env_variables := env_variables;
             check_exit_code := check_exit_code;
             ignore_exit_code := ignore_exit_code;
             delay_on_retry := delay_on_retry; attempts := attempts;
             shell := shell; loglevel := loglevel; preexec_fn := preexec_fn;
             timeout := timeout |}.

(** The option names [execute] pops. *)
Definition recognized : list string :=
  ["delay_on_retry"; "interval"; "backoff_rate"; "cwd"; "process_input";
   "env_variables"; "check_exit_code"; "attempts"; "shell"; "loglevel";
   "preexec_fn"; "timeout"].

(** In a [threading.Timer] thread an exception ends the thread (the
    traceback is printed) and goes no further: the caller of [execute] sees
    what the function did up to there and no exception. *)
Definition in_timer_thread (m : M unit) : M unit :=
  fun st =>
    match m st with
    | (Diverged, st') => (Diverged, st')
    | (_, st') => (Ok tt, st')
    end.

(** The global [sig_end], which [on_timeout] reads (lines 115 and 117):
    nothing binds it, so the lookup raises [NameError]. *)
Definition sig_end : M Z := raise (NameError "sig_end").

Section Execute.

Variable w : world.
Variable cfg : config.
Variable cmd : list string.

Definition sleep (seconds : Z) : M unit := modify (emit (EvSleep seconds)).

Definition sleep0 : M unit := modify (emit EvYield).

(** [time.sleep(random.randint(20, 200) / 100.0)]. *)
Definition jitter_sleep : M unit :=
  fun st =>
    let r := randint w (randint_calls st) in
    (Ok tt, emit (EvJitter r) (tick_randint st)).

(** [now()]. *)
Definition now : M Q :=
  fun st => (Ok (clock w (clock_reads st)), tick_clock st).

Definition set_watch (sw : StopWatch.t) : M unit := modify (put_watch sw).

(** [watch.restart()]. *)
Definition watch_restart : M unit :=
  let! st := get in
  if StopWatch.is_started (watch st) then
    let! t1 := now in
    let! t2 := now in
    let! sw := lift_res (StopWatch.restart t1 t2 (watch st)) in
    set_watch sw
  else
    let! t := now in
    let! sw := lift_res (StopWatch.restart t t (watch st)) in
    set_watch sw.

(** [watch.elapsed()]; the clock is read while the watch runs. *)
Definition watch_elapsed : M Q :=
  let! st := get in
  if StopWatch.is_started (watch st) then
    let! t := now in
    lift_res (StopWatch.elapsed t None (watch st))
  else lift_res (StopWatch.elapsed 0%Q None (watch st)).

(** [subprocess.Popen(cmd, ...)]. *)
Definition Popen : M nat :=
  fun st =>
    let k := popen_calls st in
    match run w k with
    | SpawnFails errno => (Raise (OSError errno), tick_popen st)
    | _ => (Ok k, emit (EvPopen k cmd) (tick_popen st))
    end.

(** [on_timeout(proc)], called by the timer's thread: the arguments of
    [LOG.warning] (which read [sig_end]), [shared_data[2] = proc], and
    [proc.send_signal(sig_end)]. *)
Definition on_timeout (proc : nat) : M unit :=
  let! _ := sig_end in
  let! _ := modify (set_shared (fun sd =>
        {| sd_attempt := sd_attempt sd; sd_timer := sd_timer sd;
           sd_timed_out := Some proc |})) in
  let! signal := sig_end in
  modify (emit (EvSignal proc signal)).

(** [on_execute(proc)]. *)
Definition on_execute (proc : nat) : M unit :=
  let! st := get in
  let previous := sd_attempt (shared_data st) in
  let! _ :=
    (if negb (previous =? 0) && truthy (interval cfg) then
       match as_num (backoff_rate cfg), as_num (interval cfg) with
       | Some rate, Some ival => sleep (backoff_wait ival rate previous)
       | _, _ => raise TypeError
       end
     else ret tt) in
  let! _ := modify (set_shared (fun sd =>
        {| sd_attempt := sd_attempt sd + 1; sd_timer := sd_timer sd;
           sd_timed_out := sd_timed_out sd |})) in
  if truthy (timeout cfg) then
    let! st := get in
    let tm := timers_made st in
    let! _ := modify (set_shared (fun sd =>
          {| sd_attempt := sd_attempt sd; sd_timer := Some tm;
             sd_timed_out := None |})) in
    let! _ := modify tick_timer in
    modify (emit (EvTimerStart tm proc (timeout cfg)))
  else ret tt.

(** [on_completion(proc)]. *)
Definition on_completion (proc : nat) : M unit :=
  let! st := get in
  match sd_timer (shared_data st) with
  | Some tm => modify (emit (EvTimerCancel tm))
  | None => ret tt
  end.

(** [obj.communicate(process_input)], [obj.stdin.close()] and
    [obj.returncode].  While the caller waits here the timer armed by
    [on_execute] may expire and call [on_timeout] in its thread. *)
Definition communicate (proc : nat) : M (string * string * Z) :=
  let! _ := (if truthy (timeout cfg) && timer_expires w proc
             then in_timer_thread (on_timeout proc) else ret tt) in
  match run w proc with
  | Exits stdout stderr returncode => ret (stdout, stderr, returncode)
  | CommunicateFails errno => raise (OSError errno)
  | SpawnFails errno => raise (OSError errno)
  end.

(** Lines 211-217: the test of the exit code, and [return result]. *)
Definition check_result (r : string * string * Z)
  : M (option (string * string)) :=
  let '(stdout, stderr, _returncode) := r in
  if negb (ignore_exit_code cfg) then
    match py_in _returncode (check_exit_code cfg) with
    | None => raise TypeError
    | Some false =>
        raise (ProcessExecutionError stdout stderr _returncode cmd)
    | Some true => ret (Some (stdout, stderr))
    end
  else ret (Some (stdout, stderr)).

(** Lines 218-241: the [except (ProcessExecutionError, OSError)] clause;
    other exceptions pass through. *)
Definition on_failure (remaining : Z) (err : exn)
  : M (option (string * string)) :=
  match err with
  | ProcessExecutionError _ _ _ _ | OSError _ =>
      if remaining =? 0 then raise err
      else
        let! _ := (if truthy (delay_on_retry cfg)
                   then jitter_sleep else ret tt) in
        ret None
  | _ => raise err
  end.

(** Lines 182-250: the body of the [while] loop after [watch.restart()];
    [remaining] is [attempts] after the decrement.  [Some] is the
    [return result]; [None] lets the loop go round again. *)
Definition attempt (remaining : Z) : M (option (string * string)) :=
  try_finally
    (try_except
       (let! obj := Popen in
        let! _ := on_execute obj in
        let! r := try_finally
                    (let! r := communicate obj in
                     let! _ := watch_elapsed in
                     ret r)
                    (on_completion obj) in
        check_result r)
       (on_failure remaining))
    sleep0.

(** Lines 180-250: one round of the loop, after the decrement. *)
Definition iteration (remaining : Z) : M (option (string * string)) :=
  let! _ := watch_restart in
  attempt remaining.

(** Lines 178-250: [while attempts > 0: attempts -= 1; ...]. *)
Fixpoint attempts_loop (fuel : nat) (attempts : Z) : M returned :=
  match fuel with
  | O => fun st => (Diverged, st)
  | S fuel' =>
      if 0 <? attempts then
        let attempts := attempts - 1 in
        let! r := iteration attempts in
        match r with
        | Some (stdout, stderr) => ret (ReturnedOutput stdout stderr)
        | None => attempts_loop fuel' attempts
        end
      else ret ReturnedNone
  end.

End Execute.

(** [shared_data = [0, None, None]], no watch yet, nothing observed. *)
Definition initial_state : state :=
  {| shared_data := {| sd_attempt := 0; sd_timer := None; sd_timed_out := None |};
     watch := {| StopWatch._duration := None; StopWatch._started_at := None;
                 StopWatch._stopped_at := None; StopWatch._state := None;
                 StopWatch._splits := [] |};
     popen_calls := 0; timers_made := 0; randint_calls := 0;
     clock_reads := 0; trace := [] |}.

(** [execute]: the command words [cmd] and the keyword arguments. *)
Definition execute (w : world) (cmd : list string)
    (kwargs : gmap string value) : res returned * state :=
  (let! cfg := lift_res (parse_kwargs kwargs) in
   let! sw := lift_res (StopWatch.__init__ None) in
   let! _ := set_watch sw in
   match as_num (attempts cfg) with
   | None => raise TypeError
   | Some n => attempts_loop w cfg cmd (S (Z.to_nat n)) n
   end) initial_state.

(** ** processutils.retry *)

(** ["fmt % arg"] for a format with one [%s]. *)
Fixpoint percent_s (fmt arg : string) : string :=
  match fmt with
  | EmptyString => EmptyString
  | String c rest =>
      match rest with
      | String c' rest' =>
          if (Ascii.eqb c "%"%char && Ascii.eqb c' "s"%char)%bool
          then arg +:+ rest'
          else String c (percent_s rest arg)
      | EmptyString => fmt
      end
  end.

(** What a wrapped unit of work has been seen to do. *)
Record retry_state := {
  invocations : nat;              (* calls of the wrapped function *)
  sleeps_ms : list Z              (* waits handed to [time.sleep], oldest first *)
}.

(** The three callbacks [retry] hands to [retrying.Retrying]. *)
Record Retrying := {
  retry_on_exception : exn -> bool;
  wait_func : Z -> Z -> Z;
  stop_func : Z -> Z -> bool
}.

(** The global [_], the translation function [retry] calls (line 271):
    nothing in the module imports or binds it, so the lookup raises
    [NameError]. *)
Definition gettext : res (string -> string) := Raise (NameError "_").

Section Retry.

(** [isinstance(e, exceptions)] for the exception classes passed in. *)
Variable exceptions : exn -> bool.
Variables interval retries backoff_rate : Z.

Definition _retry_on_exception (e : exn) : bool := exceptions e.

(** Returns milliseconds. *)
Definition _backoff_sleep
    (previous_attempt_number delay_since_first_attempt_ms : Z) : Z :=
  let wait_for := backoff_wait interval backoff_rate previous_attempt_number in
  wait_for * 1000.

Definition _print_stop
    (previous_attempt_number delay_since_first_attempt_ms : Z) : bool :=
  previous_attempt_number =? retries.

(** [retry(exceptions, interval, retries, backoff_rate)]: the configured
    decorator, or the error raised while configuring it. *)
Definition retry : res Retrying :=
  if retries <? 1 then
    match gettext with
    | Ok translate =>
        Raise (ValueError
          (percent_s
             (translate
                "Retries must be greater than or equal to 1 (received: %s). ")
             (pretty retries)))
    | Raise e => Raise e
    | Diverged => Diverged
    end
  else Ok {| retry_on_exception := _retry_on_exception;
             wait_func := _backoff_sleep;
             stop_func := _print_stop |}.

Section Wrapped.

Context {A : Type}.
(** The wrapped function: what its k-th call (from 0) does. *)
Variable f : nat -> res A.
(** Milliseconds since the first attempt, as read after the k-th call. *)
Variable delay_ms : nat -> Z.

(** The loop of [retrying.Retrying.call] (a third-party package), for a
    [Retrying] built with these three callbacks: attempt numbers start
    at 1; a result, or an exception [retry_on_exception] rejects, ends
    the call; otherwise [stop_func] decides between re-raising and
    sleeping [wait_func] milliseconds before the next attempt. *)
Fixpoint Retrying_call (r : Retrying) (fuel : nat) (attempt_number : Z)
    (st : retry_state) : res A * retry_state :=
  match fuel with
  | O => (Diverged, st)
  | S fuel' =>
      let k := invocations st in
      let st1 := {| invocations := S k; sleeps_ms := sleeps_ms st |} in
      match f k with
      | Ok a => (Ok a, st1)
      | Diverged => (Diverged, st1)
      | Raise e =>
          if negb (retry_on_exception r e) then (Raise e, st1)
          else if stop_func r attempt_number (delay_ms k) then (Raise e, st1)
          else
            let sleep := wait_func r attempt_number (delay_ms k) in
            Retrying_call r fuel' (attempt_number + 1)
              {| invocations := S k;
                 sleeps_ms := sleeps_ms st ++ [sleep] |}
      end
  end.

(** [retry(...)(f)(...)]: configure, decorate, and call once.  The loop
    stops at attempt [retries] at the latest. *)
Definition decorated_call : res A * retry_state :=
  let st0 := {| invocations := 0; sleeps_ms := [] |} in
  match retry with
  | Ok r => Retrying_call r (Z.to_nat retries) 1 st0
  | Raise e => (Raise e, st0)
  | Diverged => (Diverged, st0)
  end.

End Wrapped.

End Retry.

(** The keyword arguments [execute] takes: only names it pops, and no
    [interval] or [backoff_rate] next to [delay_on_retry] (these two are
    popped only when [delay_on_retry] is left out). *)
Definition well_formed_kwargs (kwargs : gmap string value) : Prop :=
  (forall k, is_Some (kwargs !! k) -> k ∈ recognized) /\
  (is_Some (kwargs !! "delay_on_retry") ->
   kwargs !! "interval" = None /\ kwargs !! "backoff_rate" = None).

(** ** The two ways of waiting between attempts *)

(** The wait in [on_execute] is guarded by [interval] (line 124). *)
Definition interval_wait_active (cfg : config) : bool := truthy (interval cfg).

(** The randomized sleep is guarded by [delay_on_retry] (line 240). *)
Definition jitter_active (cfg : config) : bool := truthy (delay_on_retry cfg).

(** The sleeps a configuration can lead to. *)
Definition allowed (cfg : config) (ev : event) : Prop :=
  match ev with
  | EvSleep _ => interval_wait_active cfg = true
  | EvJitter _ => jitter_active cfg = true
  | _ => True
  end.

(** ** Views of a run *)

(** The exit code is one the configuration takes for a failure. *)
Definition rejected (cfg : config) (returncode : Z) : Prop :=
  ignore_exit_code cfg = false /\
  py_in returncode (check_exit_code cfg) = Some false.

(** The exit code is one the configuration takes for a success. *)
Definition accepted (cfg : config) (returncode : Z) : Prop :=
  ignore_exit_code cfg = true \/
  py_in returncode (check_exit_code cfg) = Some true.

(** Where [on_execute] is asked to wait, the interval and the rate are
    numbers. *)
Definition numeric_wait (cfg : config) : Prop :=
  truthy (interval cfg) = true ->
  is_Some (as_num (interval cfg)) /\ is_Some (as_num (backoff_rate cfg)).

(** The process creations and the waits of [on_execute], in order. *)
Definition is_popen_or_sleep (ev : event) : bool :=
  match ev with
  | EvPopen _ _ | EvSleep _ => true
  | _ => false
  end.

Definition backoff_view (tr : list event) : list event :=
  List.filter is_popen_or_sleep tr.

(** The wait [on_execute] makes when [previous] calls of it came before. *)
Definition on_execute_sleep (cfg : config) (previous : Z) : list event :=
  if negb (previous =? 0) && truthy (interval cfg) then
    match as_num (backoff_rate cfg), as_num (interval cfg) with
    | Some rate, Some ival => [EvSleep (backoff_wait ival rate previous)]
    | _, _ => []
    end
  else [].

(** Process [k] is created and, from the second process on, followed by a
    wait of [max(0, interval * backoff_rate ** k)]. *)
Definition created_then_waited (cmd : list string) (ival rate : Z) (k : nat)
  : list event :=
  EvPopen k cmd ::
  match k with
  | O => []
  | S _ => [EvSleep (backoff_wait ival rate (Z.of_nat k))]
  end.

(** What a step leaves alone: the watch, the number of processes created,
    the attempt counter, and the creations and waits seen so far. *)
Definition quiet (st st' : state) : Prop :=
  watch st' = watch st /\
  popen_calls st' = popen_calls st /\
  sd_attempt (shared_data st') = sd_attempt (shared_data st) /\
  backoff_view (trace st') = backoff_view (trace st).

(** What one round adds when its process is created: one more process, one
    more counted attempt, and the creation followed by the wait. *)
Definition round_of (cfg : config) (cmd : list string) (st st' : state)
  : Prop :=
  popen_calls st' = S (popen_calls st) /\
  sd_attempt (shared_data st') = sd_attempt (shared_data st) + 1 /\
  backoff_view (trace st')
  = backoff_view (trace st)
    ++ EvPopen (popen_calls st) cmd
       :: on_execute_sleep cfg (sd_attempt (shared_data st)).

(** Only sleeps the configuration allows have been seen. *)
Definition tidy (cfg : config) (st : state) : Prop :=
  Forall (allowed cfg) (trace st).

(** [m] ends (it does not run out of fuel) and adds only allowed sleeps. *)
Definition sound (cfg : config) {A} (m : M A) : Prop :=
  forall st, tidy cfg st -> fst (m st) <> Diverged /\ tidy cfg (snd (m st)).

(** ** Triples and what a run may be asked about *)

(** From a state where [P] holds, [m] ends in an outcome and a state that
    [Q] relates. *)
Definition hoare {A} (P : state -> Prop) (m : M A)
    (Q : res A -> state -> Prop) : Prop :=
  forall st, P st -> Q (fst (m st)) (snd (m st)).

(** Reading the timer events of a trace: the last process created, and the
    timer that is armed (with the process it is for).  [None] when an event
    comes out of order: a timer armed for another process than the last one
    created or while one is armed, a cancel or a signal with no matching
    armed timer, or anything but its signal and its cancel while a timer is
    armed. *)
Definition timer_step (acc : option (option nat * option (nat * nat)))
    (ev : event) : option (option nat * option (nat * nat)) :=
  match acc with
  | None => None
  | Some (created, None) =>
      match ev with
      | EvPopen proc _ => Some (Some proc, None)
      | EvTimerStart tm proc _ =>
          match created with
          | Some p => if Nat.eqb p proc then Some (created, Some (tm, proc))
                      else None
          | None => None
          end
      | EvTimerCancel _ | EvSignal _ _ => None
      | EvSleep _ | EvJitter _ | EvYield => acc
      end
  | Some (created, Some (tm, proc)) =>
      match ev with
      | EvSignal p _ => if Nat.eqb p proc then acc else None
      | EvTimerCancel t => if Nat.eqb t tm then Some (created, None) else None
      | _ => None
      end
  end.

Definition timer_state (tr : list event)
  : option (option nat * option (nat * nat)) :=
  fold_left timer_step tr (Some (None, None)).

(** Every timer of the trace was armed for the process just created and
    cancelled before anything else happened but its own signal. *)
Definition timers_bracketed (tr : list event) : Prop :=
  exists created, timer_state tr = Some (created, None).

Definition is_timer_event (ev : event) : bool :=
  match ev with
  | EvTimerStart _ _ _ | EvTimerCancel _ | EvSignal _ _ => true
  | _ => false
  end.

(** Process [k] did not give an accepted result: it could not be created,
    [communicate] failed, or it exited with a rejected code. *)
Definition failed (w : world) (cfg : config) (k : nat) : Prop :=
  (exists errno, run w k = SpawnFails errno) \/
  (exists errno, run w k = CommunicateFails errno) \/
  (exists stdout stderr returncode,
     run w k = Exits stdout stderr returncode /\ rejected cfg returncode).

(** The configurations on which [execute] can raise [TypeError]: a wait is
    asked for with an interval or a rate that is no number, or the exit
    code is tested against something that is no list. *)
Definition ill_typed (cfg : config) : Prop :=
  (truthy (interval cfg) = true /\
   (as_num (interval cfg) = None \/ as_num (backoff_rate cfg) = None)) \/
  (ignore_exit_code cfg = false /\ py_in 0 (check_exit_code cfg) = None).

(** What one round of the loop may answer about process [k]. *)
Definition round_outcome (w : world) (cfg : config) (cmd : list string)
    (k : nat) (remaining : Z) (r : res (option (string * string))) : Prop :=
  match r with
  | Ok (Some (stdout, stderr)) =>
      exists returncode,
        run w k = Exits stdout stderr returncode /\ accepted cfg returncode
  | Ok None => remaining <> 0 /\ failed w cfg k
  | Raise (ProcessExecutionError stdout stderr returncode c) =>
      remaining = 0 /\ c = cmd /\
      run w k = Exits stdout stderr returncode /\ rejected cfg returncode
  | Raise (OSError errno) =>
      remaining = 0 /\
      (run w k = SpawnFails errno \/ run w k = CommunicateFails errno)
  | Raise TypeError => ill_typed cfg
  | Raise _ => False
  | Diverged => False
  end.

(** What the loop may answer, [n] being [attempts], [first] the number of
    [Popen] calls made before it and [calls] the number made after it. *)
Definition call_outcome (w : world) (cfg : config) (cmd : list string)
    (first : nat) (n : Z) (calls : nat) (r : res returned) : Prop :=
  (forall j, (first <= j)%nat -> (S j < calls)%nat -> failed w cfg j) /\
  (first <= calls)%nat /\
  (Z.of_nat (calls - first) <= Z.max 0 n) /\
  match r with
  | Ok ReturnedNone => n < 1 /\ calls = first
  | Ok (ReturnedOutput stdout stderr) =>
      exists j returncode,
        calls = S j /\ (first <= j)%nat /\
        run w j = Exits stdout stderr returncode /\ accepted cfg returncode
  | Raise (ProcessExecutionError stdout stderr returncode c) =>
      exists j,
        calls = S j /\ (first <= j)%nat /\ Z.of_nat (calls - first) = n /\
        c = cmd /\
        run w j = Exits stdout stderr returncode /\ rejected cfg returncode
  | Raise (OSError errno) =>
      exists j,
        calls = S j /\ (first <= j)%nat /\ Z.of_nat (calls - first) = n /\
        (run w j = SpawnFails errno \/ run w j = CommunicateFails errno)
  | Raise TypeError => (first < calls)%nat /\ ill_typed cfg
  | Raise _ => False
  | Diverged => False
  end.

(** The watch of [execute] is running. *)
Definition watch_running (st : state) : Prop :=
  StopWatch._state (watch st) = Some StopWatch.STARTED /\
  is_Some (StopWatch._started_at (watch st)).

(** With no [timeout] there is no timer and no timer event. *)
Definition timer_free (cfg : config) (st : state) : Prop :=
  truthy (timeout cfg) = false ->
  sd_timer (shared_data st) = None /\
  Forall (fun ev => is_timer_event ev = false) (trace st).

(** Between two rounds: no timer is armed. *)
Definition at_rest (cfg : config) (st : state) : Prop :=
  timers_bracketed (trace st) /\ timer_free cfg st.

(** Inside the round of process [k], with its timer armed or not. *)
Definition in_round (cfg : config) (k : nat) (armed : bool) (st : state)
  : Prop :=
  popen_calls st = S k /\ watch_running st /\ timer_free cfg st /\
  if armed
  then exists tm,
         timer_state (trace st) = Some (Some k, Some (tm, k)) /\
         sd_timer (shared_data st) = Some tm
  else timer_state (trace st) = Some (Some k, None).

(** What the guarded part of a round (lines 183-217) may answer. *)
Definition body_outcome (w : world) (cfg : config) (cmd : list string)
    (k : nat) (r : res (option (string * string))) : Prop :=
  match r with
  | Ok (Some (stdout, stderr)) =>
      exists returncode,
        run w k = Exits stdout stderr returncode /\ accepted cfg returncode
  | Ok None => False
  | Raise (ProcessExecutionError stdout stderr returncode c) =>
      c = cmd /\
      run w k = Exits stdout stderr returncode /\ rejected cfg returncode
  | Raise (OSError errno) =>
      run w k = SpawnFails errno \/ run w k = CommunicateFails errno
  | Raise TypeError => ill_typed cfg
  | Raise _ => False
  | Diverged => False
  end.

(** ** What a timer that expires leaves behind *)

Definition is_signal (ev : event) : bool :=
  match ev with
  | EvSignal _ _ => true
  | _ => false
  end.

(** No signal has been sent and no process is recorded in
    [shared_data[2]] as timed out. *)
Definition unsignalled (st : state) : Prop :=
  sd_timed_out (shared_data st) = None /\
  Forall (fun ev => is_signal ev = false) (trace st).

(** [m] keeps [I] true of the state, however it ends. *)
Definition keeps (I : state -> Prop) {A} (m : M A) : Prop :=
  forall st, I st -> I (snd (m st)).

(** A command that ends by itself with code 0 after its timer has
    expired, on every run. *)
Definition outlives_its_timer : world :=
  {| run := fun _ => Exits "done" "" 0;
     timer_expires := fun _ => true;
     randint := fun _ => 20;
     clock := fun k => inject_Z (Z.of_nat k) |}.

(** A command that is created and exits with code 1 on every run, writing
    the number of the run to its standard output. *)
Definition always_exits_1 : world :=
  {| run := fun k => Exits (pretty k) "" 1;
     timer_expires := fun _ => false;
     randint := fun _ => 20;
     clock := fun k => inject_Z (Z.of_nat k) |}.

(** * Properties *)

(** ** The stopwatch *)

Section StopWatchFacts.

Import StopWatch.
Local Open Scope Q_scope.

Lemma py_max_0_nonneg (x : Q) : 0 <= py_max 0 x.
Proof.
  unfold py_max. destruct (Qle_bool x 0) eqn:Hx.
  - apply Qle_refl.
  - destruct (Qlt_le_dec x 0) as [Hlt | Hle]; [| exact Hle].
    apply Qlt_le_weak, Qle_bool_iff in Hlt. congruence.
Qed.

Lemma py_max_0_ge (x : Q) : x <= py_max 0 x.
Proof.
  unfold py_max. destruct (Qle_bool x 0) eqn:Hx.
  - now apply Qle_bool_iff.
  - apply Qle_refl.
Qed.

Lemma py_max_0_of_nonpos (x : Q) : x <= 0 -> py_max 0 x = 0.
Proof.
  intros Hx. unfold py_max. apply Qle_bool_iff in Hx. now rewrite Hx.
Qed.

Lemma start_wf now w : wf w -> wf (start now w).
Proof.
  unfold start, is_started, wf.
  destruct (_state w) as [[|]|] eqn:Hs; cbn; rewrite ?Hs; eauto.
Qed.

Lemma stop_wf now w w' : wf w -> stop now w = Ok w' -> wf w'.
Proof.
  unfold stop, is_stopped, is_started, wf.
  destruct (_state w) as [[|]|] eqn:Hs; cbn; intros Hw Heq;
    inversion Heq; subst; cbn; rewrite ?Hs; eauto.
Qed.

(** [split()] hands nothing back: where it gets as far as building the
    split, [Split] is not there. *)
Lemma split_not_ok now w r : split now w <> Ok r.
Proof.
  unfold split, Split_class.
  destruct (is_started w); [| discriminate].
  destruct (elapsed now None w); try discriminate.
  destruct (match last (_splits w) with
            | Some prev => _delta_seconds (Some (split_elapsed prev)) (Some a)
            | None => Ok a
            end); discriminate.
Qed.

Lemma split_wf now s w w' : wf w -> split now w = Ok (s, w') -> wf w'.
Proof. intros _ Heq. now apply split_not_ok in Heq. Qed.

(** Every watch a program can hold has the timestamps its state needs. *)
Lemma reachable_wf w : reachable w -> wf w.
Proof.
  induction 1 as [d w Hinit | now w _ IH | now w w' _ IH Hstop
                 | n1 n2 w w' _ IH Hre | w w' _ IH Hres
                 | now s w w' _ IH Hsplit].
  - unfold __init__ in Hinit.
    destruct d as [d|]; [destruct (negb (Qle_bool 0 d)) |];
      inversion Hinit; exact I.
  - now apply start_wf.
  - eapply stop_wf; eassumption.
  - unfold restart in Hre. destruct (is_started w).
    + destruct (stop n1 w) as [w1| |] eqn:Hstop; inversion Hre; subst.
      apply start_wf. eapply stop_wf; eassumption.
    + inversion Hre; subst. now apply start_wf.
  - unfold resume, is_stopped in Hres. unfold wf in *.
    destruct (_state w) as [[|]|]; inversion Hres; subst; cbn; tauto.
  - eapply split_wf; eassumption.
Qed.

(** What [elapsed] answers on a watch with its timestamps in place. *)
Lemma elapsed_wf now maximum w :
  wf w -> _state w <> None ->
  exists e, elapsed now maximum w = Ok e /\ 0 <= e /\
    (forall m, maximum = Some m -> e <= py_max 0 m) /\
    (forall s, _state w = Some STARTED -> _started_at w = Some s ->
               now <= s -> e = 0).
Proof.
  unfold wf, elapsed. intros Hw Hst.
  destruct (_state w) as [s|]; [| congruence].
  assert (Hclamp : forall m e0 : Q, 0 <= e0 ->
            exists e,
              (if negb (Qle_bool e0 m) then Ok (py_max 0 m) else Ok e0)
              = Ok e /\ 0 <= e /\ e <= py_max 0 m /\ (e0 = 0 -> e = 0)).
  { intros m e0 He0. destruct (Qle_bool e0 m) eqn:Hle; cbn.
    - exists e0. repeat split; auto.
      apply Qle_bool_iff in Hle.
      eapply Qle_trans; [exact Hle | apply py_max_0_ge].
    - exists (py_max 0 m). repeat split.
      + apply py_max_0_nonneg.
      + apply Qle_refl.
      + intros ->. apply py_max_0_of_nonpos.
        destruct (Qlt_le_dec m 0) as [Hlt | Hge];
          [now apply Qlt_le_weak |].
        apply Qle_bool_iff in Hge. congruence. }
  destruct s.
  - destruct Hw as [s0 Hs0]. rewrite Hs0. cbn.
    destruct maximum as [m|].
    + destruct (Hclamp m (py_max 0 (now - s0)) (py_max_0_nonneg _))
        as (e & He & Hnn & Hmax & Hz).
      exists e. repeat split; auto.
      * intros m' [= <-]. exact Hmax.
      * intros s _ [= <-] Hback. apply Hz, py_max_0_of_nonpos.
        unfold Qminus. rewrite <- (Qplus_opp_r s0).
        apply Qplus_le_compat; [exact Hback | apply Qle_refl].
    + exists (py_max 0 (now - s0)). repeat split; auto.
      * apply py_max_0_nonneg.
      * discriminate.
      * intros s _ [= <-] Hback. apply py_max_0_of_nonpos.
        unfold Qminus. rewrite <- (Qplus_opp_r s0).
        apply Qplus_le_compat; [exact Hback | apply Qle_refl].
  - destruct Hw as [[s0 Hs0] [s1 Hs1]]. rewrite Hs0, Hs1. cbn.
    destruct maximum as [m|].
    + destruct (Hclamp m (py_max 0 (s1 - s0)) (py_max_0_nonneg _))
        as (e & He & Hnn & Hmax & _).
      exists e. repeat split; auto.
      * intros m' [= <-]. exact Hmax.
      * discriminate.
    + exists (py_max 0 (s1 - s0)). repeat split; auto.
      * apply py_max_0_nonneg.
      * discriminate.
      * discriminate.
Qed.

End StopWatchFacts.

(** C10.  On every stopwatch a program can hold that is started or stopped,
    [elapsed] returns a number of seconds that is at least zero, whatever
    the clock reads: when the clock reads no later than the start time the
    answer is zero; and when a [maximum] is given the answer is at most
    [max(0, maximum)]. *)
Theorem elapsed_nonneg_and_capped (w : StopWatch.t) (now : Q)
    (maximum : option Q) :
  StopWatch.reachable w ->
  StopWatch._state w <> None ->
  exists e,
    StopWatch.elapsed now maximum w = Ok e /\
    (0 <= e)%Q /\
    (forall m, maximum = Some m -> (e <= StopWatch.py_max 0 m)%Q) /\
    (forall s, StopWatch._state w = Some StopWatch.STARTED ->
               StopWatch._started_at w = Some s -> (now <= s)%Q -> e = 0%Q).
Proof.
  intros Hreach Hstate.
  apply elapsed_wf; [now apply reachable_wf | exact Hstate].
Qed.

(** A watch started at clock reading 5 and asked at reading 3, with a
    maximum of one second. *)
Lemma elapsed_nonneg_and_capped_witness :
  let w := StopWatch.start 5 (watch initial_state) in
  StopWatch.reachable w /\
  StopWatch._state w <> None /\
  exists e,
    StopWatch.elapsed 3 (Some 1%Q) w = Ok e /\
    (0 <= e)%Q /\
    (forall m, Some 1%Q = Some m -> (e <= StopWatch.py_max 0 m)%Q) /\
    (forall s, StopWatch._state w = Some StopWatch.STARTED ->
               StopWatch._started_at w = Some s -> (3 <= s)%Q -> e = 0%Q).
Proof.
  assert (Hreach : StopWatch.reachable (StopWatch.start 5 (watch initial_state))).
  { apply StopWatch.reach_start, (StopWatch.reach_init None). reflexivity. }
  assert (Hstate : StopWatch._state (StopWatch.start 5 (watch initial_state))
                   <> None) by (cbn; discriminate).
  cbv zeta. split; [exact Hreach | split; [exact Hstate |]].
  exact (elapsed_nonneg_and_capped _ 3%Q (Some 1%Q) Hreach Hstate).
Defined.

(** ** The backoff wait *)

Lemma py_max0_max (x : Z) : py_max0 x = Z.max 0 x.
Proof. unfold py_max0. destruct (0 <? x) eqn:H; lia. Qed.

Lemma backoff_wait_nonneg (interval rate n : Z) :
  0 <= backoff_wait interval rate n.
Proof. unfold backoff_wait. rewrite py_max0_max. lia. Qed.

Lemma backoff_wait_mono (interval rate m n : Z) :
  0 <= interval -> 1 <= rate -> 0 <= m <= n ->
  backoff_wait interval rate m <= backoff_wait interval rate n.
Proof.
  intros Hi Hr Hmn. unfold backoff_wait. rewrite !py_max0_max.
  assert (rate ^ m <= rate ^ n) by (apply Z.pow_le_mono_r; lia).
  nia.
Qed.

(** C7.  For an attempt number, an interval and a backoff rate that are all
    at least zero, the wait [max(0, interval * backoff_rate ** n)] computed
    in [on_execute] and (in milliseconds) in [_backoff_sleep] is at least
    zero, and when the rate is at least 1 it does not decrease as the
    attempt number grows. *)
Theorem backoff_wait_nonneg_nondecreasing (interval rate n : Z) :
  0 <= n -> 0 <= interval -> 0 <= rate ->
  0 <= backoff_wait interval rate n /\
  (forall delay, 0 <= _backoff_sleep interval rate n delay) /\
  (1 <= rate ->
   forall m, 0 <= m <= n ->
     backoff_wait interval rate m <= backoff_wait interval rate n /\
     forall delay delay',
       _backoff_sleep interval rate m delay
       <= _backoff_sleep interval rate n delay').
Proof.
  intros Hn Hi Hr. unfold _backoff_sleep.
  pose proof (backoff_wait_nonneg interval rate n) as H0.
  split; [exact H0 | split; [intros _; lia |]].
  intros Hr1 m Hm.
  pose proof (backoff_wait_mono interval rate m n Hi Hr1 Hm).
  split; [assumption | intros _ _; lia].
Qed.

(** Interval 1, rate 2, attempt 3: a wait of 8 seconds, after 1, 2 and 4. *)
Lemma backoff_wait_nonneg_nondecreasing_witness :
  0 <= backoff_wait 1 2 3 /\
  (forall delay, 0 <= _backoff_sleep 1 2 3 delay) /\
  (1 <= 2 ->
   forall m, 0 <= m <= 3 ->
     backoff_wait 1 2 m <= backoff_wait 1 2 3 /\
     forall delay delay',
       _backoff_sleep 1 2 m delay <= _backoff_sleep 1 2 3 delay').
Proof.
  apply (backoff_wait_nonneg_nondecreasing 1 2 3); lia.
Defined.

(** ** The retry decorator *)

(** C5.  With [retries < 1], [retry] does stop while it is being
    configured, before a unit of work put under it is called even once;
    but it does not raise the [ValueError] it sets out to raise: building
    the message calls [_], which nothing in the module binds, so the call
    ends in [NameError]. *)
Theorem retry_below_one_raises_NameError
    (exceptions : exn -> bool) (interval retries backoff_rate : Z) :
  retries < 1 ->
  retry exceptions interval retries backoff_rate = Raise (NameError "_") /\
  (forall (A : Type) (f : nat -> res A) (delay_ms : nat -> Z),
     decorated_call exceptions interval retries backoff_rate f delay_ms
     = (Raise (NameError "_"), {| invocations := 0; sleeps_ms := [] |})).
Proof.
  intros Hlt.
  assert (Hguard : (retries <? 1) = true) by (apply Z.ltb_lt; exact Hlt).
  split.
  - unfold retry, gettext. now rewrite Hguard.
  - intros A f delay_ms. unfold decorated_call, retry, gettext.
    now rewrite Hguard.
Qed.

(** [retry(Exception, retries=0)]. *)
Lemma retry_below_one_raises_NameError_witness :
  retry (fun _ => true) 1 0 2 = Raise (NameError "_").
Proof.
  apply (retry_below_one_raises_NameError (fun _ => true) 1 0 2).
  lia.
Defined.

(** From [retries = 1] on the decorator is handed back. *)
Lemma retry_accepts_retries_from_one
    (exceptions : exn -> bool)
    (interval retries backoff_rate : Z) :
  1 <= retries ->
  exists r, retry exceptions interval retries backoff_rate = Ok r.
Proof.
  intros Hge. unfold retry.
  destruct (retries <? 1) eqn:Hguard; [apply Z.ltb_lt in Hguard; lia | eauto].
Qed.

(** With [retries=3] and work that always raises a caught error, the work
    is called 3 times, with waits of 2 and 4 seconds in between, and its
    error is raised again. *)
Example retry_three_times :
  decorated_call (fun _ => true) 1 3 2
    (fun _ => Raise (A := unit) (OSError 2)) (fun _ => 0)
  = (Raise (OSError 2), {| invocations := 3; sleeps_ms := [2000; 4000] |}).
Proof. reflexivity. Qed.

(** ** Keyword arguments of [execute] *)

Ltac unfold_parse :=
  unfold parse_kwargs, wait_strategy, pop; cbn beta iota zeta.

Ltac lookup_through :=
  repeat first
    [ rewrite lookup_delete_ne by (discriminate || congruence)
    | rewrite lookup_insert_ne by (discriminate || congruence)
    | rewrite lookup_delete_eq
    | rewrite lookup_insert_eq ].

(** What the local variables hold once the keyword arguments are accepted. *)
Lemma parse_kwargs_fields (kwargs : gmap string value) (cfg : config) :
  parse_kwargs kwargs = Ok cfg ->
  attempts cfg = default (VInt 1) (kwargs !! "attempts") /\
  timeout cfg = default VNone (kwargs !! "timeout") /\
  (ignore_exit_code cfg, check_exit_code cfg)
  = normalize_exit_code (default (VList [0]) (kwargs !! "check_exit_code")) /\
  match kwargs !! "delay_on_retry" with
  | Some v =>
      interval cfg = VNone /\ delay_on_retry cfg = v
  | None =>
      interval cfg = default (VInt 1) (kwargs !! "interval") /\
      backoff_rate cfg = default (VInt 2) (kwargs !! "backoff_rate") /\
      delay_on_retry cfg = VBool false
  end.
Proof.
  unfold_parse.
  destruct (kwargs !! "delay_on_retry") as [v|] eqn:Hd; cbn beta iota zeta;
    lookup_through;
    destruct (normalize_exit_code _) as [ign chk] eqn:Hn;
    destruct (negb _); intros [= <-]; cbn;
    rewrite ?Hd; cbn; repeat split; reflexivity.
Qed.

Lemma parse_kwargs_not_diverged (kwargs : gmap string value) :
  parse_kwargs kwargs <> Diverged.
Proof.
  unfold_parse.
  destruct (kwargs !! "delay_on_retry"); cbn beta iota zeta;
    destruct (normalize_exit_code _); destruct (negb _); discriminate.
Qed.

(** A keyword that is not popped is still there when [kwargs] is tested. *)
Lemma parse_kwargs_unknown (kwargs : gmap string value) (k : string) (v : value) :
  k ∉ recognized -> kwargs !! k = Some v ->
  exists unknown,
    parse_kwargs kwargs = Raise (UnknownArgumentError unknown) /\
    unknown !! k = Some v.
Proof.
  intros Hk Hv. unfold recognized in Hk.
  repeat (apply not_elem_of_cons in Hk as [? Hk]).
  unfold_parse.
  destruct (kwargs !! "delay_on_retry") eqn:Hd; cbn beta iota zeta;
    destruct (normalize_exit_code _) as [ign chk];
    match goal with
    | |- context [size ?m] =>
        assert (Hm : m !! k = Some v) by (lookup_through; exact Hv);
        destruct (size m =? 0)%nat eqn:Hsize
    end;
    solve
      [ apply Nat.eqb_eq, map_size_empty_inv in Hsize;
        rewrite Hsize, lookup_empty in Hm; discriminate
      | cbn; eauto ].
Qed.

(** C8.  When the keyword arguments hold a name outside the options
    [execute] pops, the call raises [UnknownArgumentError] (carrying that
    keyword) from the state it started in: [Popen] has not been called and
    nothing has been observed. *)
Theorem execute_unknown_argument_fails_fast
    (w : world) (cmd : list string)
    (kwargs : gmap string value) (k : string) (v : value) :
  k ∉ recognized -> kwargs !! k = Some v ->
  exists unknown,
    fst (execute w cmd kwargs) = Raise (UnknownArgumentError unknown) /\
    unknown !! k = Some v /\
    popen_calls (snd (execute w cmd kwargs)) = 0%nat /\
    trace (snd (execute w cmd kwargs)) = [].
Proof.
  intros Hk Hv.
  destruct (parse_kwargs_unknown kwargs k v Hk Hv) as (unknown & Hparse & Hu).
  exists unknown. unfold execute, bind, lift_res. rewrite Hparse. cbn. auto.
Qed.

(** A [signal] keyword next to [attempts]. *)
Lemma execute_unknown_argument_fails_fast_witness :
  let kwargs : gmap string value :=
    <["signal" := VInt 9]> (<["attempts" := VInt 3]> ∅) in
  ("signal" ∉ recognized) /\ kwargs !! "signal" = Some (VInt 9) /\
  (exists unknown,
    fst (execute always_exits_1 ["true"] kwargs)
    = Raise (UnknownArgumentError unknown) /\
    unknown !! "signal" = Some (VInt 9) /\
    popen_calls (snd (execute always_exits_1 ["true"] kwargs)) = 0%nat /\
    trace (snd (execute always_exits_1 ["true"] kwargs)) = []).
Proof.
  cbv zeta.
  assert (Hk : "signal" ∉ recognized).
  { unfold recognized.
    repeat (apply not_elem_of_cons; split; [discriminate |]).
    apply not_elem_of_nil. }
  assert (Hv : (<["signal" := VInt 9]> (<["attempts" := VInt 3]> ∅)
                : gmap string value) !! "signal" = Some (VInt 9))
    by reflexivity.
  split; [exact Hk | split; [exact Hv |]].
  exact (execute_unknown_argument_fails_fast always_exits_1 ["true"]
           _ "signal" (VInt 9) Hk Hv).
Defined.

(** ** One round of the loop *)

Lemma bind_ok {A B} (m : M A) (k : A -> M B) (st st' : state) (a : A) :
  m st = (Ok a, st') -> bind m k st = k a st'.
Proof. unfold bind. now intros ->. Qed.

Lemma bind_raise {A B} (m : M A) (k : A -> M B) (st st' : state) (e : exn) :
  m st = (Raise e, st') -> bind m k st = (Raise e, st').
Proof. unfold bind. now intros ->. Qed.

Lemma try_except_ok {A} (m : M A) (h : exn -> M A) (st st' : state) (a : A) :
  m st = (Ok a, st') -> try_except m h st = (Ok a, st').
Proof. unfold try_except. now intros ->. Qed.

Lemma try_except_raise {A} (m : M A) (h : exn -> M A) (st st' : state)
    (e : exn) :
  m st = (Raise e, st') -> try_except m h st = h e st'.
Proof. unfold try_except. now intros ->. Qed.

Lemma try_finally_ok {A} (m : M A) (fin : M unit) (st st' st'' : state)
    (a : A) :
  m st = (Ok a, st') -> fin st' = (Ok tt, st'') ->
  try_finally m fin st = (Ok a, st'').
Proof. unfold try_finally. now intros -> ->. Qed.

Lemma try_finally_raise {A} (m : M A) (fin : M unit) (st st' st'' : state)
    (e : exn) :
  m st = (Raise e, st') -> fin st' = (Ok tt, st'') ->
  try_finally m fin st = (Raise e, st'').
Proof. unfold try_finally. now intros -> ->. Qed.

Lemma backoff_view_app (tr1 tr2 : list event) :
  backoff_view (tr1 ++ tr2) = backoff_view tr1 ++ backoff_view tr2.
Proof. apply List.filter_app. Qed.

Section Round.

Variable w : world.
Variable cfg : config.
Variable cmd : list string.

Lemma quiet_refl st : quiet st st.
Proof. repeat split. Qed.

Lemma quiet_trans st1 st2 st3 : quiet st1 st2 -> quiet st2 st3 -> quiet st1 st3.
Proof. unfold quiet. intuition congruence. Qed.

Lemma quiet_emit ev st :
  is_popen_or_sleep ev = false -> quiet st (emit ev st).
Proof.
  intros Hev. repeat split. cbn.
  rewrite backoff_view_app. cbn. rewrite Hev. apply app_nil_r.
Qed.

Lemma restart_started t1 t2 sw :
  exists sw', StopWatch.restart t1 t2 sw = Ok sw' /\
    StopWatch._state sw' = Some StopWatch.STARTED /\
    StopWatch._started_at sw' = Some t2.
Proof.
  unfold StopWatch.restart, StopWatch.stop, StopWatch.start,
    StopWatch.is_started, StopWatch.is_stopped.
  destruct (StopWatch._state sw) as [[|]|]; cbn; eauto.
Qed.

(** [watch.restart()] never raises and leaves the watch running. *)
Lemma watch_restart_ok st :
  exists st', watch_restart w st = (Ok tt, st') /\
    StopWatch._state (watch st') = Some StopWatch.STARTED /\
    is_Some (StopWatch._started_at (watch st')) /\
    popen_calls st' = popen_calls st /\
    shared_data st' = shared_data st /\
    trace st' = trace st.
Proof.
  unfold watch_restart, bind, get, now, lift_res, set_watch, modify.
  destruct (StopWatch.is_started (watch st)).
  - destruct (restart_started (clock w (clock_reads st))
                (clock w (clock_reads (tick_clock st))) (watch st))
      as (sw' & -> & Hs & Ha).
    eexists. split; [reflexivity |]. cbn. rewrite Hs, Ha. eauto 10.
  - destruct (restart_started (clock w (clock_reads st))
                (clock w (clock_reads st)) (watch st))
      as (sw' & -> & Hs & Ha).
    eexists. split; [reflexivity |]. cbn. rewrite Hs, Ha. eauto 10.
Qed.

(** On a running watch [watch.elapsed()] never raises. *)
Lemma watch_elapsed_ok st :
  StopWatch._state (watch st) = Some StopWatch.STARTED ->
  is_Some (StopWatch._started_at (watch st)) ->
  exists e st', watch_elapsed w st = (Ok e, st') /\ quiet st st' /\
    shared_data st' = shared_data st /\ trace st' = trace st.
Proof.
  intros Hs [s Ha].
  unfold watch_elapsed, bind, get, now, lift_res, StopWatch.is_started,
    StopWatch.elapsed.
  cbn beta iota. rewrite Hs, Ha. cbn.
  do 2 eexists. split; [reflexivity |]. repeat split.
Qed.

Lemma Popen_created st :
  (forall errno, run w (popen_calls st) <> SpawnFails errno) ->
  Popen w cmd st
  = (Ok (popen_calls st), emit (EvPopen (popen_calls st) cmd) (tick_popen st)).
Proof.
  intros Hrun. unfold Popen.
  destruct (run w (popen_calls st)) eqn:Hr; try reflexivity.
  now destruct (Hrun errno).
Qed.

(** [on_execute] waits as [on_execute_sleep] says and counts the attempt. *)
Lemma on_execute_ok proc st :
  (sd_attempt (shared_data st) <> 0 -> numeric_wait cfg) ->
  exists st', on_execute cfg proc st = (Ok tt, st') /\
    watch st' = watch st /\
    popen_calls st' = popen_calls st /\
    sd_attempt (shared_data st') = sd_attempt (shared_data st) + 1 /\
    backoff_view (trace st')
    = backoff_view (trace st)
      ++ on_execute_sleep cfg (sd_attempt (shared_data st)).
Proof.
  intros Hnum.
  unfold on_execute, on_execute_sleep, bind, get, modify, ret, raise, sleep.
  destruct (negb (sd_attempt (shared_data st) =? 0) && truthy (interval cfg))
    eqn:Hguard.
  - apply andb_true_iff in Hguard as [Hprev Hi].
    apply negb_true_iff, Z.eqb_neq in Hprev.
    destruct (Hnum Hprev Hi) as [[ival ->] [rate ->]].
    destruct (truthy (timeout cfg)); eexists; (split; [reflexivity |]);
      cbn; rewrite ?backoff_view_app; cbn; rewrite ?app_nil_r; auto.
  - destruct (truthy (timeout cfg)); eexists; (split; [reflexivity |]);
      cbn; rewrite ?backoff_view_app; cbn; rewrite ?app_nil_r; auto.
Qed.

(** [on_timeout] ends at its first read of [sig_end], with nothing done. *)
Lemma on_timeout_raises proc st :
  on_timeout proc st = (Raise (NameError "sig_end"), st).
Proof. reflexivity. Qed.

(** A timer that expires leaves the caller's state as it was. *)
Lemma timer_thread_on_timeout proc st :
  in_timer_thread (on_timeout proc) st = (Ok tt, st).
Proof. reflexivity. Qed.

Lemma communicate_exits proc st stdout stderr returncode :
  run w proc = Exits stdout stderr returncode ->
  exists st', communicate w cfg proc st
              = (Ok (stdout, stderr, returncode), st') /\ quiet st st'.
Proof.
  intros Hrun. unfold communicate, bind, ret.
  rewrite Hrun.
  destruct (truthy (timeout cfg) && timer_expires w proc);
    rewrite ?timer_thread_on_timeout;
    eexists; (split; [reflexivity |]); repeat split.
Qed.

Lemma on_completion_ok proc st :
  exists st', on_completion proc st = (Ok tt, st') /\ quiet st st'.
Proof.
  unfold on_completion, bind, get, modify, ret.
  destruct (sd_timer (shared_data st)); eexists;
    (split; [reflexivity |]); [now apply quiet_emit | apply quiet_refl].
Qed.

End Round.

Section Attempt.

Variable w : world.
Variable cfg : config.
Variable cmd : list string.

Lemma round_of_quiet st st1 st2 :
  round_of cfg cmd st st1 -> quiet st1 st2 -> round_of cfg cmd st st2.
Proof. unfold round_of, quiet. intuition congruence. Qed.

(** Lines 190-209: up to the test of the exit code. *)
Lemma guarded_part_exits st stdout stderr returncode :
  StopWatch._state (watch st) = Some StopWatch.STARTED ->
  is_Some (StopWatch._started_at (watch st)) ->
  (sd_attempt (shared_data st) <> 0 -> numeric_wait cfg) ->
  run w (popen_calls st) = Exits stdout stderr returncode ->
  exists st',
    (let! obj := Popen w cmd in
     let! _ := on_execute cfg obj in
     let! r := try_finally
                 (let! r := communicate w cfg obj in
                  let! _ := watch_elapsed w in
                  ret r)
                 (on_completion obj) in
     check_result cfg cmd r) st
    = check_result cfg cmd (stdout, stderr, returncode) st' /\
    round_of cfg cmd st st'.
Proof.
  intros Hs Ha Hnum Hrun.
  assert (HP := Popen_created w cmd st).
  rewrite (bind_ok _ _ _ _ _ (HP ltac:(intros errno; rewrite Hrun; discriminate))).
  set (stP := emit (EvPopen (popen_calls st) cmd) (tick_popen st)).
  destruct (on_execute_ok cfg (popen_calls st) stP Hnum)
    as (stE & HE & HEw & HEp & HEa & HEv).
  rewrite (bind_ok _ _ _ _ _ HE).
  destruct (communicate_exits w cfg (popen_calls st) stE _ _ _ Hrun)
    as (stC & HC & HCq).
  assert (HwC : watch stC = watch st).
  { destruct HCq as (-> & _). rewrite HEw. reflexivity. }
  destruct (watch_elapsed_ok w stC) as (e & stW & HW & HWq & _);
    [rewrite HwC; exact Hs | rewrite HwC; exact Ha |].
  destruct (on_completion_ok (popen_calls st) stW) as (stD & HD & HDq).
  exists stD. split.
  - erewrite bind_ok; [reflexivity |].
    eapply try_finally_ok; [| exact HD].
    rewrite (bind_ok _ _ _ _ _ HC), (bind_ok _ _ _ _ _ HW). reflexivity.
  - eapply round_of_quiet;
      [| eapply quiet_trans; [exact HCq | eapply quiet_trans; eassumption]].
    unfold round_of. rewrite HEp, HEa, HEv. subst stP. cbn.
    rewrite backoff_view_app. cbn. rewrite <- app_assoc. auto.
Qed.

(** An accepted exit code ends the round with [return result]. *)
Lemma attempt_accepted remaining st stdout stderr returncode :
  StopWatch._state (watch st) = Some StopWatch.STARTED ->
  is_Some (StopWatch._started_at (watch st)) ->
  (sd_attempt (shared_data st) <> 0 -> numeric_wait cfg) ->
  run w (popen_calls st) = Exits stdout stderr returncode ->
  accepted cfg returncode ->
  exists st',
    attempt w cfg cmd remaining st = (Ok (Some (stdout, stderr)), st') /\
    round_of cfg cmd st st'.
Proof.
  intros Hs Ha Hnum Hrun Hacc.
  destruct (guarded_part_exits st _ _ _ Hs Ha Hnum Hrun) as (st1 & Hbody & Hr).
  assert (Hcheck : check_result cfg cmd (stdout, stderr, returncode) st1
                   = (Ok (Some (stdout, stderr)), st1)).
  { unfold check_result. destruct Hacc as [-> | Hin]; [reflexivity |].
    rewrite Hin. now destruct (ignore_exit_code cfg). }
  exists (emit EvYield st1). split.
  - unfold attempt. eapply try_finally_ok; [| reflexivity].
    apply try_except_ok. rewrite Hbody. exact Hcheck.
  - eapply round_of_quiet; [exact Hr | now apply quiet_emit].
Qed.

(** A rejected exit code is raised on the last round and otherwise sends
    the loop round again. *)
Lemma attempt_rejected remaining st stdout stderr returncode :
  StopWatch._state (watch st) = Some StopWatch.STARTED ->
  is_Some (StopWatch._started_at (watch st)) ->
  (sd_attempt (shared_data st) <> 0 -> numeric_wait cfg) ->
  run w (popen_calls st) = Exits stdout stderr returncode ->
  rejected cfg returncode ->
  exists st',
    attempt w cfg cmd remaining st
    = ((if remaining =? 0
        then Raise (ProcessExecutionError stdout stderr returncode cmd)
        else Ok None), st') /\
    round_of cfg cmd st st'.
Proof.
  intros Hs Ha Hnum Hrun [Hign Hin].
  destruct (guarded_part_exits st _ _ _ Hs Ha Hnum Hrun) as (st1 & Hbody & Hr).
  assert (Hcheck : check_result cfg cmd (stdout, stderr, returncode) st1
                   = (Raise (ProcessExecutionError stdout stderr returncode cmd),
                      st1)).
  { unfold check_result. rewrite Hign, Hin. reflexivity. }
  rewrite <- Hbody in Hcheck. unfold attempt.
  destruct (remaining =? 0) eqn:Hlast.
  - exists (emit EvYield st1). split.
    + eapply try_finally_raise; [| reflexivity].
      rewrite (try_except_raise _ _ _ _ _ Hcheck).
      unfold on_failure. rewrite Hlast. reflexivity.
    + eapply round_of_quiet; [exact Hr | now apply quiet_emit].
  - assert (Hj : exists st2,
               (let! _ := (if truthy (delay_on_retry cfg)
                           then jitter_sleep w else ret tt) in
                ret (None : option (string * string))) st1 = (Ok None, st2) /\
               quiet st1 st2).
    { unfold bind, jitter_sleep, ret.
      destruct (truthy (delay_on_retry cfg)); eexists;
        (split; [reflexivity |]); [| apply quiet_refl].
      repeat split. cbn. rewrite backoff_view_app. cbn. apply app_nil_r. }
    destruct Hj as (st2 & Hj & Hq).
    exists (emit EvYield st2). split.
    + eapply try_finally_ok; [| reflexivity].
      rewrite (try_except_raise _ _ _ _ _ Hcheck).
      unfold on_failure. rewrite Hlast. exact Hj.
    + eapply round_of_quiet; [exact Hr |].
      eapply quiet_trans; [exact Hq | now apply quiet_emit].
Qed.

Lemma iteration_accepted remaining st stdout stderr returncode :
  (sd_attempt (shared_data st) <> 0 -> numeric_wait cfg) ->
  run w (popen_calls st) = Exits stdout stderr returncode ->
  accepted cfg returncode ->
  exists st',
    iteration w cfg cmd remaining st
    = (Ok (Some (stdout, stderr)), st') /\
    round_of cfg cmd st st'.
Proof.
  intros Hnum Hrun Hacc.
  destruct (watch_restart_ok w st) as (st0 & Hre & Hs & Ha & Hp & Hsd & Htr).
  rewrite <- Hp in Hrun. rewrite <- Hsd in Hnum.
  destruct (attempt_accepted remaining st0 _ _ _ Hs Ha Hnum Hrun Hacc)
    as (st' & Hatt & Hr).
  exists st'. split.
  - unfold iteration. rewrite (bind_ok _ _ _ _ _ Hre). exact Hatt.
  - unfold round_of in *. rewrite Hp, Hsd, Htr in Hr. exact Hr.
Qed.

Lemma iteration_rejected remaining st stdout stderr returncode :
  (sd_attempt (shared_data st) <> 0 -> numeric_wait cfg) ->
  run w (popen_calls st) = Exits stdout stderr returncode ->
  rejected cfg returncode ->
  exists st',
    iteration w cfg cmd remaining st
    = ((if remaining =? 0
        then Raise (ProcessExecutionError stdout stderr returncode cmd)
        else Ok None), st') /\
    round_of cfg cmd st st'.
Proof.
  intros Hnum Hrun Hrej.
  destruct (watch_restart_ok w st) as (st0 & Hre & Hs & Ha & Hp & Hsd & Htr).
  rewrite <- Hp in Hrun. rewrite <- Hsd in Hnum.
  destruct (attempt_rejected remaining st0 _ _ _ Hs Ha Hnum Hrun Hrej)
    as (st' & Hatt & Hr).
  exists st'. split.
  - unfold iteration. rewrite (bind_ok _ _ _ _ _ Hre). exact Hatt.
  - unfold round_of in *. rewrite Hp, Hsd, Htr in Hr. exact Hr.
Qed.

End Attempt.

(** ** The whole loop *)

Lemma flat_map_seq_shift {A} (f : nat -> list A) (len start : nat) :
  flat_map f (seq (S start) len) = flat_map (fun j => f (S j)) (seq start len).
Proof.
  revert start. induction len as [| len IH]; intros start; cbn; [reflexivity |].
  now rewrite IH.
Qed.

Section Loop.

Variable w : world.
Variable cfg : config.
Variable cmd : list string.

Lemma attempts_loop_S (fuel : nat) (attempts : Z) (st : state) :
  attempts_loop w cfg cmd (S fuel) attempts st
  = (if 0 <? attempts then
       let! r := iteration w cfg cmd (attempts - 1) in
       match r with
       | Some (stdout, stderr) => ret (ReturnedOutput stdout stderr)
       | None => attempts_loop w cfg cmd fuel (attempts - 1)
       end
     else ret ReturnedNone) st.
Proof. reflexivity. Qed.

(** With no attempt left [execute] falls off its end. *)
Lemma attempts_loop_none_left (fuel : nat) (attempts : Z) (st : state) :
  attempts < 1 ->
  attempts_loop w cfg cmd (S fuel) attempts st = (Ok ReturnedNone, st).
Proof.
  intros Hlt. rewrite attempts_loop_S.
  replace (0 <? attempts) with false by (symmetry; apply Z.ltb_ge; lia).
  reflexivity.
Qed.

Variables stdout_of stderr_of : nat -> string.
Variable code_of : nat -> Z.
Hypothesis Hnum : numeric_wait cfg.
Hypothesis Hruns :
  forall k, run w k = Exits (stdout_of k) (stderr_of k) (code_of k).

(** Every process is created, runs, and exits with a rejected code: the
    loop makes all its rounds and raises the failure of the last one. *)
Lemma attempts_loop_all_rejected (n : nat) :
  (forall k, rejected cfg (code_of k)) ->
  forall (fuel : nat) (st : state),
    (n < fuel)%nat ->
    exists st',
      attempts_loop w cfg cmd fuel (Z.of_nat (S n)) st
      = (Raise (ProcessExecutionError
                  (stdout_of (popen_calls st + n)%nat)
                  (stderr_of (popen_calls st + n)%nat)
                  (code_of (popen_calls st + n)%nat) cmd), st') /\
      popen_calls st' = (popen_calls st + S n)%nat /\
      backoff_view (trace st')
      = backoff_view (trace st)
        ++ flat_map
             (fun j => EvPopen (popen_calls st + j)%nat cmd
                       :: on_execute_sleep cfg
                            (sd_attempt (shared_data st) + Z.of_nat j))
             (seq 0 (S n)).
Proof.
  intros Hrej. induction n as [| n IH]; intros fuel st Hfuel;
    (destruct fuel as [| fuel]; [lia |]).
  - destruct (iteration_rejected w cfg cmd 0 st _ _ _ (fun _ => Hnum)
                (Hruns _) (Hrej _)) as (st' & Hit & Hp & _ & Hv).
    exists st'. rewrite attempts_loop_S.
    change (0 <? Z.of_nat 1) with true. change (Z.of_nat 1 - 1) with 0.
    change (0 =? 0) with true in Hit. cbv iota.
    rewrite (bind_raise _ _ _ _ _ Hit).
    cbn [seq flat_map]. rewrite !Nat.add_0_r, Z.add_0_r, app_nil_r.
    repeat split; [lia | exact Hv].
  - destruct (iteration_rejected w cfg cmd (Z.of_nat (S n)) st _ _ _
                (fun _ => Hnum) (Hruns _) (Hrej _))
      as (st1 & Hit & Hp & Ha & Hv).
    destruct (IH fuel st1 ltac:(lia)) as (st' & Hloop & Hp' & Hv').
    exists st'.
    rewrite attempts_loop_S.
    replace (0 <? Z.of_nat (S (S n))) with true by (symmetry; apply Z.ltb_lt; lia).
    replace (Z.of_nat (S (S n)) - 1) with (Z.of_nat (S n)) by lia.
    replace (Z.of_nat (S n) =? 0) with false in Hit
      by (symmetry; apply Z.eqb_neq; lia).
    rewrite (bind_ok _ _ _ _ _ Hit), Hloop, Hp', Hv', Hv, Hp, Ha.
    replace (S (popen_calls st) + n)%nat with (popen_calls st + S n)%nat by lia.
    repeat split; [lia |].
    rewrite <- app_assoc. f_equal.
    change (seq 0 (S (S n))) with (0%nat :: seq 1 (S n)).
    cbn [flat_map]. rewrite flat_map_seq_shift.
    rewrite Nat.add_0_r, Z.add_0_r. cbn [app]. f_equal.
    f_equal. apply flat_map_ext. intros j.
    replace (S (popen_calls st) + j)%nat with (popen_calls st + S j)%nat by lia.
    replace (sd_attempt (shared_data st) + 1 + Z.of_nat j)
      with (sd_attempt (shared_data st) + Z.of_nat (S j)) by lia.
    reflexivity.
Qed.

End Loop.

(** ** [execute] as a whole *)

(** Once the keyword arguments are accepted and [attempts] is a number, the
    call is the loop run from the initial state. *)
Lemma execute_accepted (w : world) (cmd : list string)
    (kwargs : gmap string value) (cfg : config) (n : Z) :
  parse_kwargs kwargs = Ok cfg ->
  as_num (attempts cfg) = Some n ->
  execute w cmd kwargs
  = attempts_loop w cfg cmd (S (Z.to_nat n)) n initial_state.
Proof.
  intros Hparse Hn. unfold execute, bind, lift_res. rewrite Hparse. cbn.
  rewrite Hn. reflexivity.
Qed.

(** C1.  A command that is created and exits with code 1 on every run,
    under [attempts=3] and [check_exit_code=[0]] (the other options
    accepted, the interval and rate numbers where a wait is asked for):
    [Popen] is called exactly 3 times and the call raises
    [ProcessExecutionError] with exit code 1, carrying the output of the
    third run; nothing of the first two runs reaches the caller. *)
Theorem execute_three_failing_attempts
    (w : world) (cmd : list string)
    (kwargs : gmap string value) (cfg : config)
    (stdout_of stderr_of : nat -> string) :
  parse_kwargs kwargs = Ok cfg ->
  kwargs !! "attempts" = Some (VInt 3) ->
  kwargs !! "check_exit_code" = Some (VList [0]) ->
  numeric_wait cfg ->
  (forall k, run w k = Exits (stdout_of k) (stderr_of k) 1) ->
  fst (execute w cmd kwargs)
  = Raise (ProcessExecutionError (stdout_of 2%nat) (stderr_of 2%nat) 1 cmd) /\
  popen_calls (snd (execute w cmd kwargs)) = 3%nat.
Proof.
  intros Hparse Hatt Hcheck Hnum Hruns.
  destruct (parse_kwargs_fields kwargs cfg Hparse) as (Ha & _ & Hc & _).
  rewrite Hatt in Ha. rewrite Hcheck in Hc. cbn in Ha, Hc.
  injection Hc as Hign Hchk.
  rewrite (execute_accepted w cmd kwargs cfg 3 Hparse)
    by (rewrite Ha; reflexivity).
  destruct (attempts_loop_all_rejected w cfg cmd stdout_of stderr_of
              (fun _ => 1) Hnum Hruns 2) with (fuel := S (Z.to_nat 3))
              (st := initial_state)
    as (st' & Hloop & Hp & _).
  - intros _. split; [exact Hign |]. rewrite Hchk. reflexivity.
  - cbn. lia.
  - change (Z.of_nat 3) with 3 in Hloop. rewrite Hloop. cbn. auto.
Qed.

(** The command [false] under [attempts=3, check_exit_code=[0]]. *)
Lemma execute_three_failing_attempts_witness :
  fst (execute always_exits_1 ["false"]
         (<["attempts" := VInt 3]> (<["check_exit_code" := VList [0]]> ∅)))
  = Raise (ProcessExecutionError (pretty 2%nat) "" 1 ["false"]) /\
  popen_calls (snd (execute always_exits_1 ["false"]
         (<["attempts" := VInt 3]> (<["check_exit_code" := VList [0]]> ∅))))
  = 3%nat.
Proof.
  eapply (execute_three_failing_attempts always_exits_1 ["false"]
            (<["attempts" := VInt 3]> (<["check_exit_code" := VList [0]]> ∅))
            _ (fun k => pretty k) (fun _ => "")).
  - vm_compute. reflexivity.
  - reflexivity.
  - reflexivity.
  - intros _. split; eexists; reflexivity.
  - intros k. reflexivity.
Defined.

Lemma on_execute_sleep_positions (cfg : config) (ival rate : Z) (j : nat) :
  as_num (interval cfg) = Some ival -> ival <> 0 ->
  as_num (backoff_rate cfg) = Some rate ->
  on_execute_sleep cfg (0 + Z.of_nat j)
  = match j with
    | O => []
    | S _ => [EvSleep (backoff_wait ival rate (Z.of_nat j))]
    end.
Proof.
  intros Hi Hnz Hr. unfold on_execute_sleep. rewrite Hi, Hr, Z.add_0_l.
  assert (Ht : truthy (interval cfg) = true).
  { destruct (interval cfg) as [| [|] | n | |]; cbn in Hi |- *;
      try discriminate; try reflexivity.
    - congruence.
    - injection Hi as ->. apply negb_true_iff, Z.eqb_neq. exact Hnz. }
  rewrite Ht. destruct j as [| j]; [reflexivity |].
  replace (Z.of_nat (S j) =? 0) with false
    by (symmetry; apply Z.eqb_neq; lia).
  reflexivity.
Qed.

(** C3, as the code has it.  Under the interval-based strategy (a nonzero
    numeric [interval], a numeric [backoff_rate]), when each of the [N]
    attempts creates its process and the process exits with a rejected
    code, the creations and waits of the call are, in order: process 0 with
    no wait, then for every later process [k] its creation followed by a
    wait of [max(0, interval * backoff_rate ** k)].  The exponent is the
    number of attempts made before, so it is 1 at the second attempt and
    [n + 1] at attempt [n + 2]; the wait comes after that attempt's process
    has been created. *)
Theorem execute_backoff_schedule
    (w : world) (cmd : list string)
    (kwargs : gmap string value) (cfg : config) (N : nat) (ival rate : Z)
    (stdout_of stderr_of : nat -> string) (code_of : nat -> Z) :
  parse_kwargs kwargs = Ok cfg ->
  attempts cfg = VInt (Z.of_nat N) ->
  as_num (interval cfg) = Some ival -> ival <> 0 ->
  as_num (backoff_rate cfg) = Some rate ->
  (forall k, run w k = Exits (stdout_of k) (stderr_of k) (code_of k)) ->
  (forall k, rejected cfg (code_of k)) ->
  backoff_view (trace (snd (execute w cmd kwargs)))
  = flat_map (created_then_waited cmd ival rate) (seq 0 N).
Proof.
  intros Hparse Hatt Hi Hnz Hr Hruns Hrej.
  rewrite (execute_accepted w cmd kwargs cfg (Z.of_nat N) Hparse)
    by (rewrite Hatt; reflexivity).
  destruct N as [| n].
  - cbn [Z.of_nat Z.to_nat Pos.to_nat].
    rewrite attempts_loop_none_left by lia. reflexivity.
  - assert (Hnum : numeric_wait cfg) by (intros _; rewrite Hi, Hr; eauto).
    destruct (attempts_loop_all_rejected w cfg cmd stdout_of stderr_of
                code_of Hnum Hruns n Hrej (S (Z.to_nat (Z.of_nat (S n))))
                initial_state ltac:(lia))
      as (st' & Hloop & _ & Hv).
    rewrite Hloop. cbn [snd]. rewrite Hv.
    change (backoff_view (trace initial_state)) with (@nil event).
    cbn [app]. apply flat_map_ext. intros j.
    change (sd_attempt (shared_data initial_state)) with 0.
    rewrite (on_execute_sleep_positions cfg ival rate j Hi Hnz Hr).
    destruct j; reflexivity.
Qed.

(** Three attempts with the default interval 1 and rate 2: waits of 2 and
    4 seconds at the second and third attempt. *)
Lemma execute_backoff_schedule_witness :
  backoff_view (trace (snd (execute always_exits_1 ["false"]
                              (<["attempts" := VInt 3]> ∅))))
  = flat_map (created_then_waited ["false"] 1 2) (seq 0 3).
Proof.
  eapply (execute_backoff_schedule always_exits_1 ["false"]
            (<["attempts" := VInt 3]> ∅) _ 3 1 2
            (fun k => pretty k) (fun _ => "") (fun _ => 1)).
  - vm_compute. reflexivity.
  - reflexivity.
  - reflexivity.
  - lia.
  - reflexivity.
  - intros k. reflexivity.
  - intros k. split; reflexivity.
Defined.

(** C3, as the claim has it, fails: with the default interval 1 and rate 2
    the wait at the second attempt is 2 seconds, not
    [interval * backoff_rate ** 0 = 1]. *)
Lemma second_attempt_wait_counterexample :
  exists wait,
    backoff_view (trace (snd (execute always_exits_1 ["false"]
                                (<["attempts" := VInt 2]> ∅))))
    = [EvPopen 0 ["false"]; EvPopen 1 ["false"]; EvSleep wait] /\
    wait <> 1 * 2 ^ 0.
Proof.
  exists 2. split; [vm_compute; reflexivity | discriminate].
Qed.

(** C2, the code at [attempts=0]: no error is raised; the call returns
    [None], having created no process. *)
Theorem execute_zero_attempts_returns_none
    (w : world) (cmd : list string) :
  execute w cmd (<["attempts" := VInt 0]> ∅)
  = (Ok ReturnedNone, initial_state).
Proof. reflexivity. Qed.

(** The same for every accepted configuration whose [attempts] is below 1. *)
Lemma execute_no_attempts_returns_none
    (w : world) (cmd : list string)
    (kwargs : gmap string value) (cfg : config) (n : Z) :
  parse_kwargs kwargs = Ok cfg ->
  as_num (attempts cfg) = Some n -> n < 1 ->
  execute w cmd kwargs = (Ok ReturnedNone, initial_state).
Proof.
  intros Hparse Hn Hlt.
  rewrite (execute_accepted w cmd kwargs cfg n Hparse Hn).
  now apply attempts_loop_none_left.
Qed.

(** C6.  With [check_exit_code=False] (the other options accepted and at
    least one attempt), whatever code the first process exits with, the call
    returns that process's captured [(stdout, stderr)] as they are, after one
    call of [Popen].  More generally a boolean [check_exit_code] is turned
    into: ignore every code ([False]), or accept only 0 ([True]); and an
    integer [n] into the one-element list [[n]]. *)
Theorem check_exit_code_normalized
    (w : world) (cmd : list string)
    (kwargs : gmap string value) (cfg : config) :
  parse_kwargs kwargs = Ok cfg ->
  (kwargs !! "check_exit_code" = Some (VBool false) ->
   forall (n : Z) (stdout stderr : string) (returncode : Z),
     as_num (attempts cfg) = Some n -> 1 <= n ->
     run w 0%nat = Exits stdout stderr returncode ->
     fst (execute w cmd kwargs) = Ok (ReturnedOutput stdout stderr) /\
     popen_calls (snd (execute w cmd kwargs)) = 1%nat) /\
  (forall b, kwargs !! "check_exit_code" = Some (VBool b) ->
     ignore_exit_code cfg = negb b /\ check_exit_code cfg = VList [0] /\
     forall returncode,
       if b
       then (returncode = 0 -> accepted cfg returncode) /\
            (returncode <> 0 -> rejected cfg returncode)
       else accepted cfg returncode) /\
  (forall n, kwargs !! "check_exit_code" = Some (VInt n) ->
     ignore_exit_code cfg = false /\ check_exit_code cfg = VList [n] /\
     forall returncode,
       (returncode = n -> accepted cfg returncode) /\
       (returncode <> n -> rejected cfg returncode)).
Proof.
  intros Hparse.
  destruct (parse_kwargs_fields kwargs cfg Hparse) as (_ & _ & Hc & _).
  split; [| split].
  - intros Hfalse n stdout stderr returncode Hn Hge Hrun.
    rewrite Hfalse in Hc. cbn in Hc. injection Hc as Hign _.
    rewrite (execute_accepted w cmd kwargs cfg n Hparse Hn).
    rewrite attempts_loop_S.
    replace (0 <? n) with true by (symmetry; apply Z.ltb_lt; lia).
    destruct (iteration_accepted w cfg cmd (n - 1) initial_state
                stdout stderr returncode)
      as (st' & Hit & Hp & _); [now intros [] | exact Hrun | now left |].
    rewrite (bind_ok _ _ _ _ _ Hit). cbn. auto.
  - intros b Hb. rewrite Hb in Hc. cbn in Hc. injection Hc as Hign Hchk.
    split; [exact Hign | split; [exact Hchk |]].
    intros returncode. unfold accepted, rejected, py_in.
    rewrite Hign, Hchk. destruct b; cbn; [| now left].
    split.
    + intros ->. now right.
    + intros Hne. split; [reflexivity |].
      apply Z.eqb_neq in Hne. now rewrite Hne.
  - intros n Hint. rewrite Hint in Hc. cbn in Hc. injection Hc as Hign Hchk.
    split; [exact Hign | split; [exact Hchk |]].
    intros returncode. unfold accepted, rejected, py_in.
    rewrite Hign, Hchk. cbn. split.
    + intros ->. right. now rewrite Z.eqb_refl.
    + intros Hne. split; [reflexivity |].
      apply Z.eqb_neq in Hne. now rewrite Hne.
Qed.

(** A command killed with exit code 137 under [check_exit_code=False]. *)
Lemma check_exit_code_normalized_witness :
  let kwargs : gmap string value := <["check_exit_code" := VBool false]> ∅ in
  let w := {| run := fun _ => Exits "partial" "Killed" 137;
              timer_expires := fun _ => false;
              randint := fun _ => 20;
              clock := fun _ => 0%Q |} in
  fst (execute w ["sleep"; "60"] kwargs)
  = Ok (ReturnedOutput "partial" "Killed") /\
  popen_calls (snd (execute w ["sleep"; "60"] kwargs)) = 1%nat.
Proof.
  cbv zeta.
  eapply (check_exit_code_normalized _ ["sleep"; "60"]
            (<["check_exit_code" := VBool false]> ∅)).
  - vm_compute. reflexivity.
  - reflexivity.
  - reflexivity.
  - lia.
  - reflexivity.
Defined.

(** ** Every run: termination, and the sleeps the configuration allows *)

Section Sound.

Variable w : world.
Variable cfg : config.
Variable cmd : list string.

Lemma tidy_same_trace st st' : trace st' = trace st -> tidy cfg st -> tidy cfg st'.
Proof. unfold tidy. now intros ->. Qed.

Lemma tidy_emit ev st : allowed cfg ev -> tidy cfg st -> tidy cfg (emit ev st).
Proof.
  unfold tidy. cbn. intros Hev Hst. apply Forall_app. split; [exact Hst |].
  now constructor.
Qed.

Lemma sound_ret {A} (a : A) : sound cfg (ret a).
Proof. intros st Hst. split; [discriminate | exact Hst]. Qed.

Lemma sound_raise {A} (e : exn) : sound cfg (raise (A := A) e).
Proof. intros st Hst. split; [discriminate | exact Hst]. Qed.

Lemma sound_lift_res {A} (r : res A) : r <> Diverged -> sound cfg (lift_res r).
Proof. intros Hr st Hst. split; [exact Hr | exact Hst]. Qed.

Lemma sound_modify (f : state -> state) :
  (forall st, tidy cfg st -> tidy cfg (f st)) -> sound cfg (modify f).
Proof. intros Hf st Hst. split; [discriminate | now apply Hf]. Qed.

Lemma sound_bind {A B} (m : M A) (k : A -> M B) :
  sound cfg m -> (forall a, sound cfg (k a)) -> sound cfg (bind m k).
Proof.
  intros Hm Hk st Hst. unfold bind.
  destruct (Hm st Hst) as [Hnd Ht].
  destruct (m st) as [[a | e |] st']; cbn in *;
    [now apply Hk | split; [discriminate | exact Ht] | congruence].
Qed.

(** [get] hands the continuation the state it runs in. *)
Lemma sound_get_bind {B} (k : state -> M B) :
  (forall st0, sound cfg (k st0)) -> sound cfg (bind get k).
Proof. intros Hk st Hst. unfold bind, get. now apply Hk. Qed.

Lemma sound_try_finally {A} (m : M A) (fin : M unit) :
  sound cfg m -> sound cfg fin -> sound cfg (try_finally m fin).
Proof.
  intros Hm Hfin st Hst. unfold try_finally.
  destruct (Hm st Hst) as [Hnd Ht].
  destruct (m st) as [[a | e |] st']; cbn in *; try congruence;
    destruct (Hfin st' Ht) as [Hnd' Ht'];
    destruct (fin st') as [[[] | e' |] st'']; cbn in *; try congruence;
    (split; [discriminate | exact Ht']).
Qed.

Lemma sound_try_except {A} (m : M A) (h : exn -> M A) :
  sound cfg m -> (forall e, sound cfg (h e)) -> sound cfg (try_except m h).
Proof.
  intros Hm Hh st Hst. unfold try_except.
  destruct (Hm st Hst) as [Hnd Ht].
  destruct (m st) as [[a | e |] st']; cbn in *;
    [split; [discriminate | exact Ht] | now apply Hh | congruence].
Qed.

Lemma sound_if {A} (b : bool) (m1 m2 : M A) :
  (b = true -> sound cfg m1) -> (b = false -> sound cfg m2) ->
  sound cfg (if b then m1 else m2).
Proof. destruct b; auto. Qed.

Lemma sound_sleep0 : sound cfg sleep0.
Proof. apply sound_modify. intros st. now apply tidy_emit. Qed.

Lemma sound_now : sound cfg (now w).
Proof. intros st Hst. split; [discriminate | exact Hst]. Qed.

Lemma sound_set_watch sw : sound cfg (set_watch sw).
Proof. apply sound_modify. intros st. now apply tidy_same_trace. Qed.

Lemma restart_not_diverged t1 t2 sw : StopWatch.restart t1 t2 sw <> Diverged.
Proof. destruct (restart_started t1 t2 sw) as (sw' & -> & _). discriminate. Qed.

Lemma elapsed_not_diverged t m sw : StopWatch.elapsed t m sw <> Diverged.
Proof.
  unfold StopWatch.elapsed, StopWatch._delta_seconds.
  destruct (StopWatch._state sw) as [[|]|]; [| | discriminate];
    destruct (StopWatch._started_at sw); try discriminate;
    try destruct (StopWatch._stopped_at sw); try discriminate;
    destruct m; try discriminate;
    match goal with |- context [if ?c then _ else _] => destruct c end;
    discriminate.
Qed.

Lemma sound_watch_restart : sound cfg (watch_restart w).
Proof.
  apply sound_get_bind. intros st0. cbv beta.
  apply sound_if; intros _.
  - apply sound_bind; [apply sound_now | intros t1].
    apply sound_bind; [apply sound_now | intros t2].
    apply sound_bind; [apply sound_lift_res, restart_not_diverged | intros sw].
    apply sound_set_watch.
  - apply sound_bind; [apply sound_now | intros t].
    apply sound_bind; [apply sound_lift_res, restart_not_diverged | intros sw].
    apply sound_set_watch.
Qed.

Lemma sound_watch_elapsed : sound cfg (watch_elapsed w).
Proof.
  apply sound_get_bind. intros st0. cbv beta.
  apply sound_if; intros _.
  - apply sound_bind; [apply sound_now | intros t].
    apply sound_lift_res, elapsed_not_diverged.
  - apply sound_lift_res, elapsed_not_diverged.
Qed.

Lemma sound_Popen : sound cfg (Popen w cmd).
Proof.
  intros st Hst. unfold Popen.
  destruct (run w (popen_calls st)); cbn;
    (split; [discriminate |]);
    first [exact Hst | apply tidy_emit; [exact I | exact Hst]].
Qed.

Lemma sound_on_timeout proc : sound cfg (on_timeout proc).
Proof.
  unfold on_timeout, sig_end.
  apply sound_bind; [apply sound_raise | intros _].
  apply sound_bind;
    [apply sound_modify; intros st; now apply tidy_same_trace | intros _].
  apply sound_bind; [apply sound_raise | intros signal].
  apply sound_modify. intros st. now apply tidy_emit.
Qed.

Lemma sound_in_timer_thread (m : M unit) :
  sound cfg m -> sound cfg (in_timer_thread m).
Proof.
  intros Hm st Hst. unfold in_timer_thread.
  destruct (Hm st Hst) as [Hnd Ht].
  destruct (m st) as [[[] | e |] st']; cbn in *; try congruence;
    (split; [discriminate | exact Ht]).
Qed.

Lemma sound_on_execute proc : sound cfg (on_execute cfg proc).
Proof.
  apply sound_get_bind. intros st0. cbv beta zeta.
  apply sound_bind; [| intros _; apply sound_bind; [| intros _]].
  - apply sound_if; intros Hguard; [| apply sound_ret].
    apply andb_true_iff in Hguard as [_ Hi].
    destruct (as_num (backoff_rate cfg)); [| apply sound_raise].
    destruct (as_num (interval cfg)); [| apply sound_raise].
    apply sound_modify. intros st'. now apply tidy_emit.
  - apply sound_modify. intros st'. now apply tidy_same_trace.
  - apply sound_if; intros _; [| apply sound_ret].
    apply sound_get_bind. intros st1. cbv beta zeta.
    apply sound_bind; [| intros _; apply sound_bind; [| intros _]];
      apply sound_modify; intros st''.
    + now apply tidy_same_trace.
    + now apply tidy_same_trace.
    + now apply tidy_emit.
Qed.

Lemma sound_on_completion proc : sound cfg (on_completion proc).
Proof.
  apply sound_get_bind. intros st0. cbv beta.
  destruct (sd_timer (shared_data st0)); [| apply sound_ret].
  apply sound_modify. intros st. now apply tidy_emit.
Qed.

Lemma sound_communicate proc : sound cfg (communicate w cfg proc).
Proof.
  apply sound_bind.
  - apply sound_if; intros _;
      [apply sound_in_timer_thread, sound_on_timeout | apply sound_ret].
  - intros _. destruct (run w proc); first [apply sound_ret | apply sound_raise].
Qed.

Lemma sound_check_result r : sound cfg (check_result cfg cmd r).
Proof.
  destruct r as [[stdout stderr] returncode]. unfold check_result.
  apply sound_if; intros _; [| apply sound_ret].
  destruct (py_in returncode (check_exit_code cfg)) as [[|]|];
    first [apply sound_ret | apply sound_raise].
Qed.

(** The randomized sleep is reached only under [delay_on_retry]. *)
Lemma sound_on_failure remaining e : sound cfg (on_failure w cfg remaining e).
Proof.
  assert (Hretry : sound cfg
            (if remaining =? 0 then raise e
             else
               let! _ := (if truthy (delay_on_retry cfg)
                          then jitter_sleep w else ret tt) in
               ret (None : option (string * string)))).
  { apply sound_if; intros _; [apply sound_raise |].
    apply sound_bind; [| intros _; apply sound_ret].
    apply sound_if; intros Hd; [| apply sound_ret].
    intros st Hst. split; [discriminate |].
    unfold jitter_sleep. cbn. apply tidy_emit; [exact Hd | exact Hst]. }
  destruct e; first [exact Hretry | apply sound_raise].
Qed.

Lemma sound_attempt remaining : sound cfg (attempt w cfg cmd remaining).
Proof.
  apply sound_try_finally; [| apply sound_sleep0].
  apply sound_try_except; [| intros e; apply sound_on_failure].
  apply sound_bind; [apply sound_Popen | intros obj].
  apply sound_bind; [apply sound_on_execute | intros _].
  apply sound_bind; [| apply sound_check_result].
  apply sound_try_finally; [| apply sound_on_completion].
  apply sound_bind; [apply sound_communicate | intros r].
  apply sound_bind; [apply sound_watch_elapsed | intros _; apply sound_ret].
Qed.

Lemma sound_iteration remaining : sound cfg (iteration w cfg cmd remaining).
Proof.
  apply sound_bind; [apply sound_watch_restart | intros _; apply sound_attempt].
Qed.

(** The fuel [execute] hands the loop is enough. *)
Lemma sound_attempts_loop (fuel : nat) :
  forall attempts, (Z.to_nat attempts < fuel)%nat ->
    sound cfg (attempts_loop w cfg cmd fuel attempts).
Proof.
  induction fuel as [| fuel IH]; intros attempts Hfuel; [lia |].
  intros st. rewrite attempts_loop_S. revert st.
  apply sound_if; intros Hpos; [| apply sound_ret].
  apply Z.ltb_lt in Hpos.
  apply sound_bind; [apply sound_iteration | intros [[stdout stderr] |]].
  - apply sound_ret.
  - apply IH. lia.
Qed.

End Sound.

(** [execute] always ends: the fuel of its loop is never used up. *)
Lemma execute_terminates (w : world) (cmd : list string)
    (kwargs : gmap string value) :
  fst (execute w cmd kwargs) <> Diverged.
Proof.
  unfold execute, bind, lift_res.
  destruct (parse_kwargs kwargs) as [cfg | e |] eqn:Hparse; cbn;
    [| discriminate | now apply parse_kwargs_not_diverged in Hparse].
  destruct (as_num (attempts cfg)) as [n |]; [| discriminate].
  apply (sound_attempts_loop w cfg cmd (S (Z.to_nat n)) n); [lia |].
  constructor.
Qed.

(** Every sleep of a run is one the configuration allows. *)
Lemma execute_allowed_sleeps (w : world) (cmd : list string)
    (kwargs : gmap string value) (cfg : config) :
  parse_kwargs kwargs = Ok cfg ->
  Forall (allowed cfg) (trace (snd (execute w cmd kwargs))).
Proof.
  intros Hparse. unfold execute, bind, lift_res. rewrite Hparse. cbn.
  destruct (as_num (attempts cfg)) as [n |]; [| constructor].
  apply (sound_attempts_loop w cfg cmd (S (Z.to_nat n)) n); [lia |].
  constructor.
Qed.

(** C4, as the code has it.  For every accepted configuration at most one
    of the two ways of waiting is active, never both: passing
    [delay_on_retry] switches the interval wait off and makes the
    randomized sleep depend on the value passed; leaving it out switches the
    randomized sleep off and makes the interval wait depend on [interval]
    (default 1).  This is settled by the keyword arguments before the first
    attempt, and every sleep of the run is of an active kind. *)
Theorem at_most_one_wait_strategy
    (kwargs : gmap string value) (cfg : config) :
  parse_kwargs kwargs = Ok cfg ->
  (interval_wait_active cfg && jitter_active cfg = false) /\
  match kwargs !! "delay_on_retry" with
  | Some v =>
      interval_wait_active cfg = false /\ jitter_active cfg = truthy v
  | None =>
      jitter_active cfg = false /\
      interval_wait_active cfg
      = truthy (default (VInt 1) (kwargs !! "interval"))
  end /\
  forall (w : world) (cmd : list string),
    Forall (allowed cfg) (trace (snd (execute w cmd kwargs))).
Proof.
  intros Hparse.
  destruct (parse_kwargs_fields kwargs cfg Hparse) as (_ & _ & _ & Hd).
  unfold interval_wait_active, jitter_active.
  split; [| split].
  - destruct (kwargs !! "delay_on_retry").
    + destruct Hd as (-> & _). reflexivity.
    + destruct Hd as (_ & _ & ->). apply andb_false_r.
  - destruct (kwargs !! "delay_on_retry").
    + destruct Hd as (-> & ->). split; reflexivity.
    + destruct Hd as (-> & _ & ->). split; reflexivity.
  - intros w cmd. now apply execute_allowed_sleeps.
Qed.

(** Two attempts with the default interval: only the interval wait. *)
Lemma at_most_one_wait_strategy_witness :
  let kwargs : gmap string value := <["attempts" := VInt 2]> ∅ in
  let cfg :=
    {| interval := VInt 1; backoff_rate := VInt 2; cwd := VNone;
       process_input := VNone; env_variables := VNone;
       check_exit_code := VList [0]; ignore_exit_code := false;
       delay_on_retry := VBool false; attempts := VInt 2;
       shell := VBool false; loglevel := VInt 10; preexec_fn := VNone;
       timeout := VNone |} in
  parse_kwargs kwargs = Ok cfg /\
  (interval_wait_active cfg && jitter_active cfg = false) /\
  match kwargs !! "delay_on_retry" with
  | Some v =>
      interval_wait_active cfg = false /\ jitter_active cfg = truthy v
  | None =>
      jitter_active cfg = false /\
      interval_wait_active cfg
      = truthy (default (VInt 1) (kwargs !! "interval"))
  end /\
  forall (w : world) (cmd : list string),
    Forall (allowed cfg) (trace (snd (execute w cmd kwargs))).
Proof.
  cbv zeta.
  match goal with
  | |- ?parsed /\ _ => assert (Hparse : parsed) by (vm_compute; reflexivity)
  end.
  split; [exact Hparse |].
  exact (at_most_one_wait_strategy _ _ Hparse).
Defined.

(** C4, as the claim has it, fails: with [delay_on_retry=False] neither way
    of waiting is active, and a failed first attempt is followed by the
    second with no sleep but the [time.sleep(0)] of the [finally] clause. *)
Lemma neither_wait_strategy_counterexample :
  let kwargs : gmap string value :=
    <["delay_on_retry" := VBool false]> (<["attempts" := VInt 2]> ∅) in
  exists cfg,
    parse_kwargs kwargs = Ok cfg /\
    interval_wait_active cfg = false /\
    jitter_active cfg = false /\
    trace (snd (execute always_exits_1 ["false"] kwargs))
    = [EvPopen 0 ["false"]; EvYield; EvPopen 1 ["false"]; EvYield].
Proof.
  cbv zeta. eexists. split; [vm_compute; reflexivity |].
  repeat split; vm_compute; reflexivity.
Qed.

(** ** The timeout timer *)

Section Keeps.

Variable I : state -> Prop.

Lemma keeps_ret {A} (a : A) : keeps I (ret a).
Proof. intros st Hst. exact Hst. Qed.

Lemma keeps_raise {A} (e : exn) : keeps I (raise (A := A) e).
Proof. intros st Hst. exact Hst. Qed.

Lemma keeps_lift_res {A} (r : res A) : keeps I (lift_res r).
Proof. intros st Hst. exact Hst. Qed.

Lemma keeps_modify (f : state -> state) :
  (forall st, I st -> I (f st)) -> keeps I (modify f).
Proof. intros Hf st Hst. now apply Hf. Qed.

Lemma keeps_bind {A B} (m : M A) (k : A -> M B) :
  keeps I m -> (forall a, keeps I (k a)) -> keeps I (bind m k).
Proof.
  intros Hm Hk st Hst. unfold bind. specialize (Hm st Hst).
  destruct (m st) as [[a | e |] st']; cbn in *; [now apply Hk | exact Hm ..].
Qed.

Lemma keeps_get_bind {B} (k : state -> M B) :
  (forall st0, keeps I (k st0)) -> keeps I (bind get k).
Proof. intros Hk st Hst. unfold bind, get. now apply Hk. Qed.

Lemma keeps_try_finally {A} (m : M A) (fin : M unit) :
  keeps I m -> keeps I fin -> keeps I (try_finally m fin).
Proof.
  intros Hm Hfin st Hst. unfold try_finally. specialize (Hm st Hst).
  destruct (m st) as [[a | e |] st']; cbn in *; [| | exact Hm];
    specialize (Hfin st' Hm);
    destruct (fin st') as [[[] | e' |] st'']; exact Hfin.
Qed.

Lemma keeps_try_except {A} (m : M A) (h : exn -> M A) :
  keeps I m -> (forall e, keeps I (h e)) -> keeps I (try_except m h).
Proof.
  intros Hm Hh st Hst. unfold try_except. specialize (Hm st Hst).
  destruct (m st) as [[a | e |] st']; cbn in *; [exact Hm | now apply Hh | exact Hm].
Qed.

Lemma keeps_in_timer_thread (m : M unit) :
  keeps I m -> keeps I (in_timer_thread m).
Proof.
  intros Hm st Hst. unfold in_timer_thread. specialize (Hm st Hst).
  destruct (m st) as [[[] | e |] st']; exact Hm.
Qed.

End Keeps.

Section TimerExpires.

Variable w : world.
Variable cfg : config.
Variable cmd : list string.

Lemma unsignalled_emit ev st :
  is_signal ev = false -> unsignalled st -> unsignalled (emit ev st).
Proof.
  intros Hev [Hsd Htr]. split; [exact Hsd |]. cbn.
  apply Forall_app. split; [exact Htr | now constructor].
Qed.

Lemma unsignalled_same st st' :
  sd_timed_out (shared_data st') = sd_timed_out (shared_data st) ->
  trace st' = trace st -> unsignalled st -> unsignalled st'.
Proof. unfold unsignalled. now intros -> ->. Qed.

Lemma keeps_now : keeps unsignalled (now w).
Proof. intros st Hst. exact Hst. Qed.

Lemma keeps_watch_restart : keeps unsignalled (watch_restart w).
Proof.
  apply keeps_get_bind. intros st0. cbv beta.
  destruct (StopWatch.is_started (watch st0));
    repeat (apply keeps_bind; [first [apply keeps_now | apply keeps_lift_res] |];
            intros ?);
    apply keeps_modify; intros st; now apply unsignalled_same.
Qed.

Lemma keeps_watch_elapsed : keeps unsignalled (watch_elapsed w).
Proof.
  apply keeps_get_bind. intros st0. cbv beta.
  destruct (StopWatch.is_started (watch st0)); [| apply keeps_lift_res].
  apply keeps_bind; [apply keeps_now | intros t; apply keeps_lift_res].
Qed.

Lemma keeps_Popen : keeps unsignalled (Popen w cmd).
Proof.
  intros st Hst. unfold Popen.
  destruct (run w (popen_calls st)); cbn;
    first [exact Hst | apply unsignalled_emit; [reflexivity | exact Hst]].
Qed.

(** [on_execute] clears [shared_data[2]] when it arms a timer. *)
Lemma keeps_on_execute proc : keeps unsignalled (on_execute cfg proc).
Proof.
  apply keeps_get_bind. intros st0. cbv beta zeta.
  apply keeps_bind; [| intros _; apply keeps_bind; [| intros _]].
  - destruct (negb (sd_attempt (shared_data st0) =? 0) && truthy (interval cfg));
      [| apply keeps_ret].
    destruct (as_num (backoff_rate cfg)); [| apply keeps_raise].
    destruct (as_num (interval cfg)); [| apply keeps_raise].
    apply keeps_modify. intros st. now apply unsignalled_emit.
  - apply keeps_modify. intros st. now apply unsignalled_same.
  - destruct (truthy (timeout cfg)); [| apply keeps_ret].
    apply keeps_get_bind. intros st1. cbv beta zeta.
    apply keeps_bind; [| intros _; apply keeps_bind; [| intros _]];
      apply keeps_modify; intros st.
    + intros [_ Htr]. split; [reflexivity | exact Htr].
    + now apply unsignalled_same.
    + now apply unsignalled_emit.
Qed.

Lemma keeps_on_completion proc : keeps unsignalled (on_completion proc).
Proof.
  apply keeps_get_bind. intros st0. cbv beta.
  destruct (sd_timer (shared_data st0)); [| apply keeps_ret].
  apply keeps_modify. intros st. now apply unsignalled_emit.
Qed.

(** The timer's thread ends in [on_timeout] before anything is done. *)
Lemma keeps_communicate proc : keeps unsignalled (communicate w cfg proc).
Proof.
  apply keeps_bind.
  - destruct (truthy (timeout cfg) && timer_expires w proc);
      [| apply keeps_ret].
    intros st Hst. now rewrite timer_thread_on_timeout.
  - intros _. destruct (run w proc); first [apply keeps_ret | apply keeps_raise].
Qed.

Lemma keeps_check_result r : keeps unsignalled (check_result cfg cmd r).
Proof.
  destruct r as [[stdout stderr] returncode]. unfold check_result.
  destruct (negb (ignore_exit_code cfg)); [| apply keeps_ret].
  destruct (py_in returncode (check_exit_code cfg)) as [[|]|];
    first [apply keeps_ret | apply keeps_raise].
Qed.

Lemma keeps_on_failure remaining e :
  keeps unsignalled (on_failure w cfg remaining e).
Proof.
  assert (Hretry : keeps unsignalled
            (if remaining =? 0 then raise e
             else
               let! _ := (if truthy (delay_on_retry cfg)
                          then jitter_sleep w else ret tt) in
               ret (A := option (string * string)) None)).
  { destruct (remaining =? 0); [apply keeps_raise |].
    apply keeps_bind; [| intros _; apply keeps_ret].
    destruct (truthy (delay_on_retry cfg)); [| apply keeps_ret].
    intros st Hst. unfold jitter_sleep. cbn.
    apply unsignalled_emit; [reflexivity |].
    now apply (unsignalled_same st). }
  unfold on_failure. destruct e; first [exact Hretry | apply keeps_raise].
Qed.

Lemma keeps_attempt remaining :
  keeps unsignalled (attempt w cfg cmd remaining).
Proof.
  apply keeps_try_finally.
  - apply keeps_try_except; [| intros e; apply keeps_on_failure].
    apply keeps_bind; [apply keeps_Popen | intros obj].
    apply keeps_bind; [apply keeps_on_execute | intros _].
    apply keeps_bind; [| intros r; apply keeps_check_result].
    apply keeps_try_finally; [| apply keeps_on_completion].
    apply keeps_bind; [apply keeps_communicate | intros r].
    apply keeps_bind; [apply keeps_watch_elapsed | intros _; apply keeps_ret].
  - apply keeps_modify. intros st. now apply unsignalled_emit.
Qed.

Lemma keeps_attempts_loop fuel :
  forall attempts, keeps unsignalled (attempts_loop w cfg cmd fuel attempts).
Proof.
  induction fuel as [| fuel IH]; intros attempts; cbn [attempts_loop].
  - intros st Hst. exact Hst.
  - destruct (0 <? attempts); [| apply keeps_ret].
    apply keeps_bind.
    + apply keeps_bind; [apply keeps_watch_restart | intros _].
      apply keeps_attempt.
    + intros [[stdout stderr] |]; [apply keeps_ret | apply IH].
Qed.

End TimerExpires.

Lemma execute_unsignalled (w : world) (cmd : list string)
    (kwargs : gmap string value) :
  unsignalled (snd (execute w cmd kwargs)).
Proof.
  assert (Hinit : unsignalled initial_state) by (split; [reflexivity | constructor]).
  unfold execute.
  refine (keeps_bind unsignalled _ _ _ _ initial_state Hinit);
    [apply keeps_lift_res | intros cfg].
  apply keeps_bind; [apply keeps_lift_res | intros sw].
  apply keeps_bind;
    [apply keeps_modify; intros st; now apply unsignalled_same | intros _].
  destruct (as_num (attempts cfg)); [apply keeps_attempts_loop | apply keeps_raise].
Qed.

(** C9.  A timer that expires does not send the signal.  [on_timeout]
    ends in [NameError] at its first read of [sig_end], which nothing binds,
    before it records the process in [shared_data[2]] and before
    [proc.send_signal]; the error stays in the timer's thread.  So in every
    call of [execute], whatever the processes and the timers do, no signal
    is ever sent and no process is recorded as timed out: a timer that
    expires is neither cancelled before it fires nor followed by a signal,
    and a command that outlives its timeout is waited for until it ends by
    itself.  Disarming is safe: [on_completion] never raises, cancels
    the timer that is there, does nothing when there is none, and sends no
    signal. *)
Theorem expired_timer_sends_no_signal :
  (forall proc st, on_timeout proc st = (Raise (NameError "sig_end"), st)) /\
  (forall w cmd kwargs, unsignalled (snd (execute w cmd kwargs))) /\
  (forall proc st,
     on_completion proc st
     = (Ok tt, match sd_timer (shared_data st) with
               | Some tm => emit (EvTimerCancel tm) st
               | None => st
               end)) /\
  fst (execute outlives_its_timer ["sleep"; "60"] (<["timeout" := VInt 1]> ∅))
  = Ok (ReturnedOutput "done" "") /\
  trace (snd (execute outlives_its_timer ["sleep"; "60"]
                (<["timeout" := VInt 1]> ∅)))
  = [EvPopen 0 ["sleep"; "60"]; EvTimerStart 0 0 (VInt 1); EvTimerCancel 0;
     EvYield].
Proof.
  split; [intros proc st; apply on_timeout_raises |].
  split; [apply execute_unsignalled |].
  split.
  - intros proc st. unfold on_completion, bind, get.
    now destruct (sd_timer (shared_data st)).
  - split; vm_compute; reflexivity.
Qed.

(** * Further properties *)

(** ** The stopwatch, method by method *)

Section StopWatchMethods.

Import StopWatch.
Local Open Scope Q_scope.

Lemma py_max_0_of_nonneg (x : Q) : 0 <= x -> py_max 0 x == x.
Proof.
  intros Hx. unfold py_max. destruct (Qle_bool x 0) eqn:Hle; [| reflexivity].
  apply Qle_bool_iff in Hle. lra.
Qed.

(** The methods never touch the duration. *)
Lemma reachable_duration w :
  reachable w -> forall d, _duration w = Some d -> 0 <= d.
Proof.
  induction 1 as [d0 w Hinit | now w _ IH | now w w' _ IH Hstop
                 | n1 n2 w w' _ IH Hre | w w' _ IH Hres
                 | now s w w' _ IH Hsplit]; intros d Hd.
  - unfold __init__ in Hinit. destruct d0 as [d0 |].
    + destruct (Qle_bool 0 d0) eqn:Hle; cbn in Hinit; [| discriminate].
      injection Hinit as <-. cbn in Hd. injection Hd as <-.
      now apply Qle_bool_iff.
    + injection Hinit as <-. discriminate.
  - apply IH. unfold start in Hd. now destruct (is_started w).
  - apply IH. unfold stop in Hstop.
    destruct (is_stopped w); [now injection Hstop as <- |].
    destruct (negb (is_started w)); [discriminate |].
    now injection Hstop as <-.
  - apply IH. unfold restart, stop, start in Hre.
    destruct (is_started w) eqn:Hs.
    + destruct (is_stopped w); [injection Hre as <- |].
      * rewrite Hs in Hd. exact Hd.
      * cbn in Hre. injection Hre as <-. exact Hd.
    + injection Hre as <-. exact Hd.
  - apply IH. unfold resume in Hres.
    destruct (is_stopped w); [| discriminate]. now injection Hres as <-.
  - now apply split_not_ok in Hsplit.
Qed.

End StopWatchMethods.

(** X1.  Every watch a program can hold has no duration or a duration that
    is at least zero: the constructor refuses a negative one and no method
    changes it. *)
Theorem watch_duration_nonneg (w : StopWatch.t) (d : Q) :
  StopWatch.reachable w -> StopWatch._duration w = Some d -> (0 <= d)%Q.
Proof. intros Hreach. now apply reachable_duration. Qed.

(** A watch with a 3 second budget, started at reading 5. *)
Lemma watch_duration_nonneg_witness :
  (0 <= 3)%Q.
Proof.
  apply (watch_duration_nonneg
           (StopWatch.start 5
              {| StopWatch._duration := Some 3%Q; StopWatch._started_at := None;
                 StopWatch._stopped_at := None; StopWatch._state := None;
                 StopWatch._splits := [] |}) 3%Q).
  - apply StopWatch.reach_start, (StopWatch.reach_init (Some 3%Q)).
    reflexivity.
  - reflexivity.
Defined.

(** The constructor refuses a negative duration. *)
Lemma init_rejects_negative_duration (d : Q) :
  (d < 0)%Q -> exists msg, StopWatch.__init__ (Some d) = Raise (ValueError msg).
Proof.
  intros Hd. unfold StopWatch.__init__.
  destruct (Qle_bool 0 d) eqn:Hle; [| cbn; eauto].
  apply Qle_bool_iff in Hle. lra.
Qed.

(** X2.  Stopping a running watch freezes it: a second [stop] changes
    nothing (the first stop time is kept), and [elapsed] no longer depends on
    the clock; it is the clamped time between start and stop. *)
Theorem stopped_watch_is_frozen (w : StopWatch.t) (s t : Q) :
  StopWatch._state w = Some StopWatch.STARTED ->
  StopWatch._started_at w = Some s ->
  exists w1,
    StopWatch.stop t w = Ok w1 /\
    (forall t', StopWatch.stop t' w1 = Ok w1) /\
    (forall now maximum,
       StopWatch.elapsed now maximum w1
       = StopWatch.elapsed 0 maximum w1) /\
    (forall now, StopWatch.elapsed now None w1
                 = Ok (StopWatch.py_max 0 (t - s))).
Proof.
  intros Hs Ha. eexists. split; [| split; [| split]].
  - unfold StopWatch.stop, StopWatch.is_stopped, StopWatch.is_started.
    rewrite Hs. reflexivity.
  - intros t'. reflexivity.
  - intros now maximum. reflexivity.
  - intros now. unfold StopWatch.elapsed. cbn. rewrite Ha. reflexivity.
Qed.

Lemma stopped_watch_is_frozen_witness :
  exists w1,
    StopWatch.stop 9 (StopWatch.start 5 (watch initial_state)) = Ok w1 /\
    (forall t', StopWatch.stop t' w1 = Ok w1) /\
    (forall now maximum,
       StopWatch.elapsed now maximum w1 = StopWatch.elapsed 0 maximum w1) /\
    (forall now, StopWatch.elapsed now None w1
                 = Ok (StopWatch.py_max 0 (9 - 5))).
Proof.
  apply (stopped_watch_is_frozen (StopWatch.start 5 (watch initial_state)) 5 9);
    reflexivity.
Defined.

(** X3.  A pause is not taken out of the measurement: after [stop] and
    [resume] the watch runs again with its original start time and its
    splits, so [elapsed] counts from the first start. *)
Theorem stop_resume_keeps_start (w : StopWatch.t) (s t : Q) :
  StopWatch._state w = Some StopWatch.STARTED ->
  StopWatch._started_at w = Some s ->
  exists w1 w2,
    StopWatch.stop t w = Ok w1 /\
    StopWatch.resume w1 = Ok w2 /\
    StopWatch._state w2 = Some StopWatch.STARTED /\
    StopWatch._started_at w2 = Some s /\
    StopWatch._splits w2 = StopWatch._splits w /\
    forall now, StopWatch.elapsed now None w2
                = Ok (StopWatch.py_max 0 (now - s)).
Proof.
  intros Hs Ha. do 2 eexists. split; [| split].
  - unfold StopWatch.stop, StopWatch.is_stopped, StopWatch.is_started.
    rewrite Hs. reflexivity.
  - reflexivity.
  - cbn. repeat split; auto.
    intros now. unfold StopWatch.elapsed. cbn. rewrite Ha. reflexivity.
Qed.

Lemma stop_resume_keeps_start_witness :
  exists w1 w2,
    StopWatch.stop 9 (StopWatch.start 5 (watch initial_state)) = Ok w1 /\
    StopWatch.resume w1 = Ok w2 /\
    StopWatch._state w2 = Some StopWatch.STARTED /\
    StopWatch._started_at w2 = Some 5%Q /\
    StopWatch._splits w2
    = StopWatch._splits (StopWatch.start 5 (watch initial_state)) /\
    forall now, StopWatch.elapsed now None w2
                = Ok (StopWatch.py_max 0 (now - 5)).
Proof.
  apply (stop_resume_keeps_start (StopWatch.start 5 (watch initial_state)) 5 9);
    reflexivity.
Defined.

Lemma restart_shape (w : StopWatch.t) (t_stop t_start : Q) :
  exists w',
    StopWatch.restart t_stop t_start w = Ok w' /\
    StopWatch._state w' = Some StopWatch.STARTED /\
    StopWatch._started_at w' = Some t_start /\
    StopWatch._stopped_at w' = None /\
    StopWatch._splits w' = [] /\
    StopWatch._duration w' = StopWatch._duration w /\
    forall now, StopWatch.elapsed now None w'
                = Ok (StopWatch.py_max 0 (now - t_start)).
Proof.
  unfold StopWatch.restart, StopWatch.stop, StopWatch.start,
    StopWatch.is_started, StopWatch.is_stopped.
  destruct (StopWatch._state w) as [[|]|]; cbn;
    eexists; (split; [reflexivity |]); cbn; repeat split; reflexivity.
Qed.

(** X4.  [restart] works from every state, never raises, and gives a
    running watch that starts at the new clock reading with no splits, no
    stop time and the same duration. *)
Theorem restart_from_any_state (w : StopWatch.t) (t_stop t_start : Q) :
  exists w',
    StopWatch.restart t_stop t_start w = Ok w' /\
    StopWatch._state w' = Some StopWatch.STARTED /\
    StopWatch._started_at w' = Some t_start /\
    StopWatch._stopped_at w' = None /\
    StopWatch._splits w' = [] /\
    StopWatch._duration w' = StopWatch._duration w /\
    forall now, StopWatch.elapsed now None w'
                = Ok (StopWatch.py_max 0 (now - t_start)).
Proof. apply restart_shape. Qed.

(** X5.  A watch that was never started refuses [stop], [resume], [split],
    [elapsed], [leftover] and [expired] with [RuntimeError]; leaving a
    [with] block on it changes nothing. *)
Theorem never_started_watch_refuses (duration : option Q) (w : StopWatch.t)
    (now : Q) :
  StopWatch.__init__ duration = Ok w ->
  (exists msg, StopWatch.stop now w = Raise (RuntimeError msg)) /\
  (exists msg, StopWatch.resume w = Raise (RuntimeError msg)) /\
  (exists msg, StopWatch.split now w = Raise (RuntimeError msg)) /\
  (forall maximum,
     exists msg, StopWatch.elapsed now maximum w = Raise (RuntimeError msg)) /\
  (forall return_none,
     exists msg,
       StopWatch.leftover now return_none w = Raise (RuntimeError msg)) /\
  (exists msg, StopWatch.expired now w = Raise (RuntimeError msg)) /\
  StopWatch.__exit__ now w = w.
Proof.
  intros Hinit.
  assert (Hs : StopWatch._state w = None).
  { unfold StopWatch.__init__ in Hinit.
    destruct duration as [d |]; [destruct (negb (Qle_bool 0 d)) |];
      inversion Hinit; reflexivity. }
  unfold StopWatch.stop, StopWatch.resume, StopWatch.split,
    StopWatch.elapsed, StopWatch.leftover, StopWatch.expired,
    StopWatch.__exit__, StopWatch.stop,
    StopWatch.is_started, StopWatch.is_stopped.
  rewrite Hs. cbn. repeat split; eauto.
Qed.

Lemma never_started_watch_refuses_witness :
  exists msg,
    StopWatch.stop 1 (watch initial_state) = Raise (RuntimeError msg).
Proof.
  apply (never_started_watch_refuses None (watch initial_state) 1).
  reflexivity.
Defined.

Section StopWatchSplits.

Import StopWatch.
Local Open Scope Q_scope.

(** No method but [split()] adds to [_splits], and [start()] empties it. *)
Lemma reachable_no_splits w : reachable w -> _splits w = [].
Proof.
  induction 1 as [d w Hinit | now w _ IH | now w w' _ IH Hstop
                 | n1 n2 w w' _ IH Hre | w w' _ IH Hres
                 | now s w w' _ IH Hsplit].
  - unfold __init__ in Hinit.
    destruct d as [d |]; [destruct (negb (Qle_bool 0 d)) |];
      inversion Hinit; reflexivity.
  - unfold start. now destruct (is_started w).
  - unfold stop in Hstop.
    destruct (is_stopped w); [now injection Hstop as <- |].
    destruct (negb (is_started w)); [discriminate |].
    now injection Hstop as <-.
  - destruct (restart_shape w n1 n2) as (w1 & Hw1 & _ & _ & _ & Hsp & _).
    rewrite Hre in Hw1. now injection Hw1 as <-.
  - unfold resume in Hres.
    destruct (is_stopped w); [| discriminate]. now injection Hres as <-.
  - now apply split_not_ok in Hsplit.
Qed.

(** On a running watch [split()] gets as far as [Split(elapsed, length)]. *)
Lemma split_started now w :
  wf w -> is_started w = true -> _splits w = [] ->
  split now w = Raise (NameError "Split").
Proof.
  intros Hwf Hst Hnil. unfold split. rewrite Hst.
  destruct (elapsed_wf now None w Hwf) as (e & -> & _).
  - unfold is_started in Hst. now destruct (_state w).
  - now rewrite Hnil.
Qed.

End StopWatchSplits.

(** X6.  [split()] never records a split.  On a running watch a program
    can hold it computes the elapsed time and the length and then raises
    [NameError], because [Split] is bound nowhere in the module; on any
    other watch it raises [RuntimeError].  Either way the watch is left as
    it was, so every watch a program can hold has no splits. *)
Theorem split_never_records (w : StopWatch.t) (now : Q) :
  StopWatch.reachable w ->
  StopWatch._splits w = [] /\
  (forall r, StopWatch.split now w <> Ok r) /\
  (StopWatch.is_started w = true ->
   StopWatch.split now w = Raise (NameError "Split")) /\
  (StopWatch.is_started w = false ->
   exists msg, StopWatch.split now w = Raise (RuntimeError msg)).
Proof.
  intros Hreach.
  pose proof (reachable_no_splits w Hreach) as Hnil.
  pose proof (reachable_wf w Hreach) as Hwf.
  split; [exact Hnil |]. split; [intros r; apply split_not_ok |]. split.
  - intros Hst. now apply split_started.
  - intros Hst. unfold StopWatch.split. rewrite Hst. eauto.
Qed.

(** A watch started at reading 5 and asked for a split at reading 7. *)
Lemma split_never_records_witness :
  StopWatch.split 7 (StopWatch.start 5 (watch initial_state))
  = Raise (NameError "Split").
Proof.
  apply (split_never_records (StopWatch.start 5 (watch initial_state)) 7).
  - apply StopWatch.reach_start, (StopWatch.reach_init None). reflexivity.
  - reflexivity.
Defined.

(** X8.  On a running watch with a duration, [leftover] answers a time
    between zero and the duration, whatever the clock reads; it is zero as
    soon as [expired] answers true, and the rest of the duration while the
    elapsed time is within it. *)
Theorem leftover_bounded_zero_when_expired
    (w : StopWatch.t) (d now : Q) (return_none : bool) :
  StopWatch.reachable w ->
  StopWatch._state w = Some StopWatch.STARTED ->
  StopWatch._duration w = Some d ->
  exists e l,
    StopWatch.elapsed now None w = Ok e /\
    StopWatch.leftover now return_none w = Ok (Some l) /\
    StopWatch.expired now w = Ok (negb (Qle_bool e d)) /\
    (0 <= l)%Q /\ (l <= d)%Q /\
    (Qle_bool e d = false -> l = 0%Q) /\
    (Qle_bool e d = true -> (l == d - e)%Q).
Proof.
  intros Hreach Hs Hd.
  pose proof (reachable_duration w Hreach d Hd) as Hdpos.
  destruct (elapsed_wf now None w (reachable_wf w Hreach)
              ltac:(rewrite Hs; discriminate)) as (e & He & Hepos & _).
  exists e, (StopWatch.py_max 0 (d - e)).
  unfold StopWatch.leftover, StopWatch.expired, StopWatch.is_started.
  rewrite Hs, Hd, He. cbn.
  repeat split.
  - apply py_max_0_nonneg.
  - unfold StopWatch.py_max. destruct (Qle_bool (d - e) 0); lra.
  - intros Hexp. apply py_max_0_of_nonpos.
    destruct (Qlt_le_dec d e) as [Hlt | Hge]; [lra |].
    apply Qle_bool_iff in Hge. congruence.
  - intros Hin. apply Qle_bool_iff in Hin. apply py_max_0_of_nonneg. lra.
Qed.

(** A 3 second budget, started at reading 5 and asked at reading 9. *)
Lemma leftover_bounded_zero_when_expired_witness :
  exists e l,
    StopWatch.elapsed 9 None
      {| StopWatch._duration := Some 3%Q; StopWatch._started_at := Some 5%Q;
         StopWatch._stopped_at := None;
         StopWatch._state := Some StopWatch.STARTED;
         StopWatch._splits := [] |} = Ok e /\
    StopWatch.leftover 9 false
      {| StopWatch._duration := Some 3%Q; StopWatch._started_at := Some 5%Q;
         StopWatch._stopped_at := None;
         StopWatch._state := Some StopWatch.STARTED;
         StopWatch._splits := [] |} = Ok (Some l) /\
    StopWatch.expired 9
      {| StopWatch._duration := Some 3%Q; StopWatch._started_at := Some 5%Q;
         StopWatch._stopped_at := None;
         StopWatch._state := Some StopWatch.STARTED;
         StopWatch._splits := [] |} = Ok (negb (Qle_bool e 3)) /\
    (0 <= l)%Q /\ (l <= 3)%Q /\
    (Qle_bool e 3 = false -> l = 0%Q) /\
    (Qle_bool e 3 = true -> (l == 3 - e)%Q).
Proof.
  apply (leftover_bounded_zero_when_expired _ 3 9 false).
  - apply (StopWatch.reach_start 5%Q
             {| StopWatch._duration := Some 3%Q; StopWatch._started_at := None;
                StopWatch._stopped_at := None; StopWatch._state := None;
                StopWatch._splits := [] |}),
      (StopWatch.reach_init (Some 3%Q)).
    reflexivity.
  - reflexivity.
  - reflexivity.
Defined.

(** X9.  A [with] block around a new watch measures the block: entering
    starts the watch, leaving stops it (and never raises), and afterwards
    [elapsed] is the clamped time between the two, whatever the clock
    reads. *)
Theorem with_block_measures (duration : option Q) (w0 : StopWatch.t)
    (t_enter t_exit : Q) :
  StopWatch.__init__ duration = Ok w0 ->
  StopWatch._state (StopWatch.__exit__ t_exit (StopWatch.__enter__ t_enter w0))
  = Some StopWatch.STOPPED /\
  forall now,
    StopWatch.elapsed now None
      (StopWatch.__exit__ t_exit (StopWatch.__enter__ t_enter w0))
    = Ok (StopWatch.py_max 0 (t_exit - t_enter)).
Proof.
  intros Hinit.
  assert (Hs : StopWatch._state w0 = None).
  { unfold StopWatch.__init__ in Hinit.
    destruct duration as [d |]; [destruct (negb (Qle_bool 0 d)) |];
      inversion Hinit; reflexivity. }
  unfold StopWatch.__exit__, StopWatch.__enter__, StopWatch.start,
    StopWatch.stop, StopWatch.is_started, StopWatch.is_stopped.
  rewrite Hs. cbn. split; reflexivity.
Qed.

Lemma with_block_measures_witness :
  StopWatch._state
    (StopWatch.__exit__ 8 (StopWatch.__enter__ 5 (watch initial_state)))
  = Some StopWatch.STOPPED /\
  forall now,
    StopWatch.elapsed now None
      (StopWatch.__exit__ 8 (StopWatch.__enter__ 5 (watch initial_state)))
    = Ok (StopWatch.py_max 0 (8 - 5)).
Proof.
  apply (with_block_measures None). reflexivity.
Defined.

(** ** Which keyword arguments are taken *)

Lemma parse_kwargs_leftover (kwargs : gmap string value) :
  exists rest : gmap string value,
    parse_kwargs kwargs
    = (if negb (size rest =? 0)%nat
       then Raise (UnknownArgumentError rest)
       else parse_kwargs kwargs) /\
    (forall k, rest !! k
       = if bool_decide
              (k ∈ ["cwd"; "process_input"; "env_variables"; "check_exit_code";
                    "delay_on_retry"; "attempts"; "shell"; "loglevel";
                    "preexec_fn"; "timeout"])
         then None
         else match kwargs !! "delay_on_retry" with
              | Some _ => kwargs !! k
              | None =>
                  if bool_decide (k ∈ ["interval"; "backoff_rate"])
                  then None else kwargs !! k
              end) /\
    (size rest = 0%nat -> exists cfg, parse_kwargs kwargs = Ok cfg).
Proof.
  unfold_parse.
  destruct (kwargs !! "delay_on_retry") eqn:Hd; cbn beta iota zeta;
    destruct (normalize_exit_code _) as [ign chk];
    match goal with
    | |- context [size ?m] => exists m
    end;
    (split; [now destruct (negb _) | split]).
  - intros k. rewrite !lookup_delete.
    repeat (case_decide; [subst; reflexivity |]).
    rewrite bool_decide_eq_false_2; [reflexivity |].
    repeat (apply not_elem_of_cons; split; [congruence |]).
    apply not_elem_of_nil.
  - intros ->. cbn. eauto.
  - intros k. rewrite !lookup_delete.
    repeat (case_decide; [subst; cbn; reflexivity |]).
    rewrite lookup_insert_ne by congruence.
    rewrite (bool_decide_eq_false_2 (k ∈ [_; _; _; _; _; _; _; _; _; _])).
    + rewrite (bool_decide_eq_false_2 (k ∈ [_; _])); [reflexivity |].
      repeat (apply not_elem_of_cons; split; [congruence |]).
      apply not_elem_of_nil.
    + repeat (apply not_elem_of_cons; split; [congruence |]).
      apply not_elem_of_nil.
  - intros ->. cbn. eauto.
Qed.

Lemma recognized_split (k : string) :
  k ∈ recognized <->
  k ∈ ["cwd"; "process_input"; "env_variables"; "check_exit_code";
       "delay_on_retry"; "attempts"; "shell"; "loglevel";
       "preexec_fn"; "timeout"] \/
  k ∈ ["interval"; "backoff_rate"].
Proof.
  unfold recognized. rewrite !elem_of_cons, !elem_of_nil. tauto.
Qed.

(** X10.  [execute] takes its keyword arguments exactly when every name is
    one it pops and [delay_on_retry] does not come with [interval] or
    [backoff_rate]: these two are popped only when [delay_on_retry] is left
    out, so next to it they count as unknown arguments. *)
Theorem kwargs_accepted_iff (kwargs : gmap string value) :
  (exists cfg, parse_kwargs kwargs = Ok cfg) <-> well_formed_kwargs kwargs.
Proof.
  destruct (parse_kwargs_leftover kwargs) as (rest & Hparse & Hrest & Hok).
  split.
  - intros [cfg Hcfg].
    assert (Hempty : rest = ∅).
    { apply map_size_empty_inv. destruct (size rest) eqn:Hsize; [reflexivity |].
      rewrite Hcfg in Hparse. cbn in Hparse. discriminate. }
    assert (Hnone : forall k, rest !! k = None)
      by (intros k; rewrite Hempty; apply lookup_empty).
    split.
    + intros k [v Hv]. specialize (Hnone k). rewrite Hrest in Hnone.
      apply recognized_split.
      case_bool_decide as Hin; [now left |].
      destruct (kwargs !! "delay_on_retry"); [congruence |].
      case_bool_decide as Hin2; [now right | congruence].
    + intros [v Hd].
      pose proof (Hnone "interval") as Hi.
      pose proof (Hnone "backoff_rate") as Hb.
      rewrite Hrest, Hd in Hi, Hb. cbn in Hi, Hb. auto.
  - intros [Hnames Hconflict]. apply Hok.
    replace rest with (∅ : gmap string value); [reflexivity |].
    symmetry. apply map_empty. intros k. rewrite Hrest.
    case_bool_decide as Hin; [reflexivity |].
    destruct (kwargs !! k) as [v |] eqn:Hk.
    + specialize (Hnames k (ex_intro _ v Hk)).
      apply recognized_split in Hnames as [Hnames | Hnames]; [contradiction |].
      destruct (kwargs !! "delay_on_retry") as [d |] eqn:Hd.
      * destruct (Hconflict (ex_intro _ d eq_refl)) as [Hi Hb].
        rewrite !elem_of_cons, elem_of_nil in Hnames.
        destruct Hnames as [-> | [-> | []]]; congruence.
      * now rewrite bool_decide_eq_true_2.
    + destruct (kwargs !! "delay_on_retry"); [reflexivity |].
      now case_bool_decide.
Qed.

(** X11.  Passing [interval] (or [backoff_rate]) together with
    [delay_on_retry] makes [execute] raise [UnknownArgumentError] carrying
    that option, before any process is created. *)
Theorem interval_with_delay_on_retry_is_unknown
    (w : world) (cmd : list string)
    (kwargs : gmap string value) (k : string) (d v : value) :
  kwargs !! "delay_on_retry" = Some d ->
  k = "interval" \/ k = "backoff_rate" ->
  kwargs !! k = Some v ->
  exists unknown,
    execute w cmd kwargs
    = (Raise (UnknownArgumentError unknown), initial_state) /\
    unknown !! k = Some v.
Proof.
  intros Hd Hk Hv.
  destruct (parse_kwargs_leftover kwargs) as (rest & Hparse & Hrest & _).
  assert (Hin : rest !! k = Some v).
  { rewrite Hrest, Hd, <- Hv. destruct Hk as [-> | ->]; reflexivity. }
  exists rest. split; [| exact Hin].
  unfold execute, bind, lift_res. rewrite Hparse.
  destruct (size rest) eqn:Hsize; [| reflexivity].
  apply map_size_empty_inv in Hsize. rewrite Hsize, lookup_empty in Hin.
  discriminate.
Qed.

Lemma interval_with_delay_on_retry_is_unknown_witness :
  exists unknown,
    execute always_exits_1 ["true"]
      (<["interval" := VInt 5]> (<["delay_on_retry" := VBool true]> ∅))
    = (Raise (UnknownArgumentError unknown), initial_state) /\
    unknown !! "interval" = Some (VInt 5).
Proof.
  apply (interval_with_delay_on_retry_is_unknown always_exits_1 ["true"]
           (<["interval" := VInt 5]> (<["delay_on_retry" := VBool true]> ∅))
           "interval" (VBool true) (VInt 5)).
  - reflexivity.
  - now left.
  - reflexivity.
Defined.

(** ** The retry decorator at work *)

Section RetryLoop.

Variable exceptions : exn -> bool.
Variables interval retries backoff_rate : Z.
Context {A : Type}.
Variable f : nat -> res A.
Variable delay_ms : nat -> Z.

(** The waits after the first [n] attempts, in milliseconds. *)
Lemma Retrying_call_caught_prefix (n : nat) :
  forall (fuel : nat) (attempt_number : Z) (st : retry_state),
    (forall j, (j < n)%nat ->
       (exists e, f (invocations st + j)%nat = Raise e /\
                  exceptions e = true) /\
       attempt_number + Z.of_nat j <> retries) ->
    Retrying_call f delay_ms
      {| retry_on_exception := _retry_on_exception exceptions;
         wait_func := _backoff_sleep interval backoff_rate;
         stop_func := _print_stop retries |}
      (n + fuel) attempt_number st
    = Retrying_call f delay_ms
        {| retry_on_exception := _retry_on_exception exceptions;
           wait_func := _backoff_sleep interval backoff_rate;
           stop_func := _print_stop retries |}
        fuel (attempt_number + Z.of_nat n)
        {| invocations := (invocations st + n)%nat;
           sleeps_ms :=
             sleeps_ms st
             ++ map (fun j => 1000 * backoff_wait interval backoff_rate
                                       (attempt_number + Z.of_nat j))
                    (seq 0 n) |}.
Proof.
  induction n as [| n IH]; intros fuel attempt_number st Hcaught.
  - cbn [seq map Nat.add]. rewrite Z.add_0_r, Nat.add_0_r, app_nil_r.
    now destruct st.
  - destruct (Hcaught 0%nat ltac:(lia)) as ((e & Hf & Hexc) & Hstop).
    rewrite Nat.add_0_r in Hf. rewrite Z.add_0_r in Hstop.
    cbn [Nat.add Retrying_call]. rewrite Hf. cbn.
    unfold _retry_on_exception, _print_stop. rewrite Hexc. cbn.
    replace (attempt_number =? retries) with false
      by (symmetry; now apply Z.eqb_neq).
    rewrite IH.
    + cbn [invocations sleeps_ms]. f_equal; [lia |].
      f_equal; [lia |]. rewrite <- app_assoc. f_equal.
      cbn [seq map app]. rewrite Z.add_0_r. f_equal.
      * unfold _backoff_sleep. lia.
      * rewrite <- seq_shift, map_map. apply map_ext. intros j.
        do 2 f_equal. lia.
    + intros j Hj. cbn [invocations].
      destruct (Hcaught (S j) ltac:(lia)) as (Hf' & Hstop').
      replace (S (invocations st) + j)%nat with (invocations st + S j)%nat
        by lia.
      split; [exact Hf' | lia].
Qed.

End RetryLoop.

(** X12.  Under [retry] with [retries >= 1], work that raises a caught
    kind of error on every call is called exactly [retries] times; between
    the calls the loop is told to wait
    [1000 * max(0, interval * backoff_rate ** k)] milliseconds after the
    k-th call; and the error of the last call is raised again.  (The loop
    is that of the [retrying] package, driven by the three callbacks
    [retry] defines.) *)
Theorem retry_exhausts_then_reraises
    (exceptions : exn -> bool)
    (interval retries backoff_rate : Z)
    (A : Type) (f : nat -> res A) (delay_ms : nat -> Z) (err : nat -> exn) :
  1 <= retries ->
  (forall k, f k = Raise (err k) /\ exceptions (err k) = true) ->
  decorated_call exceptions interval retries backoff_rate f delay_ms
  = (Raise (err (Z.to_nat retries - 1)%nat),
     {| invocations := Z.to_nat retries;
        sleeps_ms :=
          map (fun j => 1000 * backoff_wait interval backoff_rate
                                 (1 + Z.of_nat j))
              (seq 0 (Z.to_nat retries - 1)) |}).
Proof.
  intros Hge Hfail. unfold decorated_call, retry.
  replace (retries <? 1) with false by (symmetry; apply Z.ltb_ge; lia).
  remember (Z.to_nat retries - 1)%nat as n eqn:Hn.
  replace (Z.to_nat retries) with (n + 1)%nat by lia.
  rewrite (Retrying_call_caught_prefix exceptions interval retries backoff_rate
             f delay_ms n 1).
  - cbn [Retrying_call invocations sleeps_ms Nat.add app].
    destruct (Hfail n) as [-> Hexc]. cbn.
    unfold _retry_on_exception, _print_stop. rewrite Hexc. cbn.
    replace (1 + Z.of_nat n =? retries) with true
      by (symmetry; apply Z.eqb_eq; lia).
    f_equal. f_equal. lia.
  - intros j Hj. cbn [invocations Nat.add].
    destruct (Hfail j) as [Hf Hexc]. split; [eauto | lia].
Qed.

(** Three tries at work that always fails with [OSError]. *)
Lemma retry_exhausts_then_reraises_witness :
  decorated_call (fun _ => true) 1 3 2
    (fun k => Raise (A := unit) (OSError (Z.of_nat k))) (fun _ => 0)
  = (Raise (OSError (Z.of_nat (Z.to_nat 3 - 1))),
     {| invocations := Z.to_nat 3;
        sleeps_ms :=
          map (fun j => 1000 * backoff_wait 1 2 (1 + Z.of_nat j))
              (seq 0 (Z.to_nat 3 - 1)) |}).
Proof.
  apply (retry_exhausts_then_reraises (fun _ => true) 1 3 2 unit
           (fun k => Raise (OSError (Z.of_nat k))) (fun _ => 0)
           (fun k => OSError (Z.of_nat k))).
  - lia.
  - intros k. split; reflexivity.
Defined.

(** X13.  Under [retry], the first call of the work that returns, or that
    raises an error of a kind not to be caught, ends the whole call with
    that very outcome: the work is not called again, and only the waits
    after the caught failures before it have been asked for. *)
Theorem retry_stops_at_first_other_outcome
    (exceptions : exn -> bool)
    (interval retries backoff_rate : Z)
    (A : Type) (f : nat -> res A) (delay_ms : nat -> Z)
    (j : nat) (outcome : res A) :
  Z.of_nat j < retries ->
  (forall i, (i < j)%nat -> exists e, f i = Raise e /\ exceptions e = true) ->
  f j = outcome ->
  match outcome with
  | Ok _ => True
  | Raise e => exceptions e = false
  | Diverged => False
  end ->
  decorated_call exceptions interval retries backoff_rate f delay_ms
  = (outcome,
     {| invocations := S j;
        sleeps_ms :=
          map (fun i => 1000 * backoff_wait interval backoff_rate
                                 (1 + Z.of_nat i))
              (seq 0 j) |}).
Proof.
  intros Hlt Hcaught Hf Hout. unfold decorated_call, retry.
  replace (retries <? 1) with false by (symmetry; apply Z.ltb_ge; lia).
  replace (Z.to_nat retries) with (j + S (Z.to_nat retries - S j))%nat by lia.
  rewrite (Retrying_call_caught_prefix exceptions interval retries backoff_rate
             f delay_ms j).
  - cbn [Retrying_call invocations sleeps_ms Nat.add app].
    rewrite Hf. destruct outcome as [a | e |]; [reflexivity | | contradiction].
    cbn. unfold _retry_on_exception. rewrite Hout. reflexivity.
  - intros i Hi. cbn [invocations Nat.add]. split; [now apply Hcaught | lia].
Qed.

(** Work that fails once with a caught [OSError] and then returns 7. *)
Lemma retry_stops_at_first_other_outcome_witness :
  decorated_call
    (fun e => match e with OSError _ => true | _ => false end) 1 3 2
    (fun k => match k with O => Raise (OSError 2) | S _ => Ok 7 end)
    (fun _ => 0)
  = (Ok 7,
     {| invocations := 2;
        sleeps_ms := map (fun i => 1000 * backoff_wait 1 2 (1 + Z.of_nat i))
                         (seq 0 1) |}).
Proof.
  apply (retry_stops_at_first_other_outcome
           (fun e => match e with OSError _ => true | _ => false end) 1 3 2 Z
           (fun k => match k with O => Raise (OSError 2) | S _ => Ok 7 end)
           (fun _ => 0) 1 (Ok 7)).
  - lia.
  - intros i Hi. assert (i = 0%nat) as -> by lia. eauto.
  - reflexivity.
  - exact I.
Defined.

(** ** Every run of [execute], whatever the processes do *)

Lemma hoare_conseq {A} (P P' : state -> Prop) (Q Q' : res A -> state -> Prop)
    (m : M A) :
  (forall st, P' st -> P st) -> hoare P m Q ->
  (forall r st, Q r st -> Q' r st) -> hoare P' m Q'.
Proof. intros HP Hm HQ st Hst. apply HQ, Hm, HP, Hst. Qed.

Lemma hoare_bind {A B} (P : state -> Prop) (R : res A -> state -> Prop)
    (Q : res B -> state -> Prop) (m : M A) (k : A -> M B) :
  hoare P m R ->
  (forall a, hoare (R (Ok a)) (k a) Q) ->
  (forall e st, R (Raise e) st -> Q (Raise e) st) ->
  (forall st, R Diverged st -> Q Diverged st) ->
  hoare P (bind m k) Q.
Proof.
  intros Hm Hk He Hd st Hst. unfold bind. specialize (Hm st Hst).
  destruct (m st) as [[a | e |] st']; cbn in *; auto. now apply Hk.
Qed.

Lemma hoare_try_except {A} (P : state -> Prop) (R Q : res A -> state -> Prop)
    (m : M A) (h : exn -> M A) :
  hoare P m R ->
  (forall e, hoare (R (Raise e)) (h e) Q) ->
  (forall a st, R (Ok a) st -> Q (Ok a) st) ->
  (forall st, R Diverged st -> Q Diverged st) ->
  hoare P (try_except m h) Q.
Proof.
  intros Hm Hh Ha Hd st Hst. unfold try_except. specialize (Hm st Hst).
  destruct (m st) as [[a | e |] st']; cbn in *; auto. now apply Hh.
Qed.

(** A [finally] clause that always ends well keeps the outcome. *)
Lemma hoare_try_finally {A} (P : state -> Prop) (R Q : res A -> state -> Prop)
    (m : M A) (fin : M unit) :
  hoare P m R ->
  (forall r, r <> Diverged ->
     hoare (R r) fin (fun r' st => r' = Ok tt /\ Q r st)) ->
  (forall st, R Diverged st -> Q Diverged st) ->
  hoare P (try_finally m fin) Q.
Proof.
  intros Hm Hfin Hd st Hst. unfold try_finally. specialize (Hm st Hst).
  destruct (m st) as [[a | e |] st']; cbn in *; auto.
  - specialize (Hfin (Ok a) ltac:(discriminate) st' Hm).
    destruct (fin st') as [[[] | e' |] st'']; cbn in *;
      destruct Hfin as [Heq HQ]; now try discriminate.
  - specialize (Hfin (Raise e) ltac:(discriminate) st' Hm).
    destruct (fin st') as [[[] | e' |] st'']; cbn in *;
      destruct Hfin as [Heq HQ]; now try discriminate.
Qed.

Ltac state_fields :=
  cbn [trace emit tick_popen tick_timer tick_randint tick_clock set_shared
       put_watch shared_data popen_calls watch sd_timer sd_attempt
       sd_timed_out timers_made randint_calls clock_reads fst snd].

Lemma timer_state_snoc (tr : list event) (ev : event) :
  timer_state (tr ++ [ev]) = timer_step (timer_state tr) ev.
Proof. unfold timer_state. now rewrite fold_left_app. Qed.

Lemma timer_free_emit cfg ev st :
  is_timer_event ev = false -> timer_free cfg st -> timer_free cfg (emit ev st).
Proof.
  intros Hev Hfree Hto. destruct (Hfree Hto) as [Hsd Hall].
  split; [exact Hsd |]. cbn. apply Forall_app. split; [exact Hall |].
  now constructor.
Qed.

Section AnyWorld.

Variable w : world.
Variable cfg : config.
Variable cmd : list string.

Lemma in_round_at_rest k st :
  in_round cfg k false st -> popen_calls st = S k /\ at_rest cfg st.
Proof.
  intros (Hp & _ & Hfree & Hts). split; [exact Hp |].
  split; [now exists (Some k) | exact Hfree].
Qed.

Lemma triple_watch_restart k :
  hoare (fun st => popen_calls st = k /\ at_rest cfg st)
    (watch_restart w)
    (fun r st => r = Ok tt /\ popen_calls st = k /\ at_rest cfg st /\
                 watch_running st).
Proof.
  intros st (Hp & Hb & Hfree).
  destruct (watch_restart_ok w st) as (st' & -> & Hs & Ha & Hp' & Hsd & Htr).
  cbn. unfold at_rest, timer_free, watch_running.
  rewrite Htr, Hsd, Hp'. auto.
Qed.

Lemma triple_Popen k :
  hoare (fun st => popen_calls st = k /\ at_rest cfg st /\ watch_running st)
    (Popen w cmd)
    (fun r st =>
       match r with
       | Ok p => p = k /\ (forall errno, run w k <> SpawnFails errno) /\
                 in_round cfg k false st
       | Raise e => (exists errno, e = OSError errno /\
                                   run w k = SpawnFails errno) /\
                    popen_calls st = S k /\ at_rest cfg st
       | Diverged => False
       end).
Proof.
  intros st (Hp & (Hb & Hfree) & Hw). unfold Popen. rewrite Hp.
  assert (Hin : in_round cfg k false (emit (EvPopen k cmd) (tick_popen st))).
  { split; [cbn; now rewrite Hp |]. split; [exact Hw |].
    split; [now apply timer_free_emit |].
    destruct Hb as [created Hb]. state_fields.
    now rewrite timer_state_snoc, Hb. }
  destruct (run w k) eqn:Hr; cbn.
  - split; [eauto |]. split; [now rewrite Hp |]. now split.
  - split; [reflexivity | split; [discriminate | exact Hin]].
  - split; [reflexivity | split; [discriminate | exact Hin]].
Qed.

Lemma triple_on_execute k :
  hoare (in_round cfg k false) (on_execute cfg k)
    (fun r st =>
       match r with
       | Ok _ => in_round cfg k (truthy (timeout cfg)) st
       | Raise e => e = TypeError /\ ill_typed cfg /\ in_round cfg k false st
       | Diverged => False
       end).
Proof.
  intros st (Hp & Hw & Hfree & Hts).
  assert (Hstart : forall st0,
            popen_calls st0 = S k -> watch_running st0 ->
            timer_free cfg st0 ->
            timer_state (trace st0) = Some (Some k, None) ->
            in_round cfg k (truthy (timeout cfg))
              (snd ((if truthy (timeout cfg) then
                       let! st1 := get in
                       let tm := timers_made st1 in
                       let! _ := modify (set_shared (fun sd =>
                             {| sd_attempt := sd_attempt sd; sd_timer := Some tm;
                                sd_timed_out := None |})) in
                       let! _ := modify tick_timer in
                       modify (emit (EvTimerStart tm k (timeout cfg)))
                     else ret tt)
                      (set_shared (fun sd =>
                         {| sd_attempt := sd_attempt sd + 1;
                            sd_timer := sd_timer sd;
                            sd_timed_out := sd_timed_out sd |}) st0)))).
  { intros st0 Hp0 Hw0 Hfree0 Hts0.
    destruct (truthy (timeout cfg)) eqn:Hto; cbn.
    - split; [exact Hp0 |]. split; [exact Hw0 |]. split; [congruence |].
      exists (timers_made st0). state_fields.
      rewrite timer_state_snoc, Hts0. cbn. now rewrite Nat.eqb_refl.
    - split; [exact Hp0 |]. split; [exact Hw0 |].
      split; [exact Hfree0 | exact Hts0]. }
  unfold on_execute, bind, get.
  destruct (negb (sd_attempt (shared_data st) =? 0) && truthy (interval cfg))
    eqn:Hguard.
  - apply andb_true_iff in Hguard as [_ Hi].
    destruct (as_num (backoff_rate cfg)) as [rate |] eqn:Hrate;
      [destruct (as_num (interval cfg)) as [ival |] eqn:Hival |]; cbn.
    + specialize (Hstart (emit (EvSleep
                     (backoff_wait ival rate (sd_attempt (shared_data st)))) st)
                    Hp Hw ltac:(now apply timer_free_emit)
                    ltac:(state_fields; now rewrite timer_state_snoc, Hts)).
      destruct (truthy (timeout cfg)); exact Hstart.
    + split; [reflexivity | split; [left; auto |]].
      split; [exact Hp |]. split; [exact Hw |]. split; [exact Hfree | exact Hts].
    + split; [reflexivity | split; [left; auto |]].
      split; [exact Hp |]. split; [exact Hw |]. split; [exact Hfree | exact Hts].
  - cbn. specialize (Hstart st Hp Hw Hfree Hts).
    destruct (truthy (timeout cfg)); exact Hstart.
Qed.

Lemma triple_communicate k :
  hoare (fun st => in_round cfg k (truthy (timeout cfg)) st /\
                   forall errno, run w k <> SpawnFails errno)
    (communicate w cfg k)
    (fun r st =>
       in_round cfg k (truthy (timeout cfg)) st /\
       match r with
       | Ok (stdout, stderr, returncode) =>
           run w k = Exits stdout stderr returncode
       | Raise e => exists errno, e = OSError errno /\
                                  run w k = CommunicateFails errno
       | Diverged => False
       end).
Proof.
  intros st [Hin Hspawn].
  assert (Hsig : (if truthy (timeout cfg) && timer_expires w k
                  then in_timer_thread (on_timeout k) else ret tt) st
                 = (Ok tt, st)).
  { destruct (truthy (timeout cfg) && timer_expires w k); reflexivity. }
  unfold communicate, bind. rewrite Hsig.
  destruct (run w k) eqn:Hr; cbn; (split; [exact Hin |]); eauto.
  now destruct (Hspawn errno).
Qed.

Lemma triple_watch_elapsed k armed :
  hoare (in_round cfg k armed) (watch_elapsed w)
    (fun r st => (exists e, r = Ok e) /\ in_round cfg k armed st).
Proof.
  intros st (Hp & [Hs Ha] & Hfree & Hts).
  destruct (watch_elapsed_ok w st Hs Ha)
    as (e & st' & -> & (Hw' & Hp' & _) & Hsd & Htr).
  cbn. split; [eauto |].
  unfold in_round, watch_running, timer_free.
  rewrite Htr, Hsd, Hw', Hp'. auto.
Qed.

Lemma triple_on_completion k :
  hoare (in_round cfg k (truthy (timeout cfg))) (on_completion k)
    (fun r st => r = Ok tt /\ in_round cfg k false st).
Proof.
  intros st (Hp & Hw & Hfree & Hts). unfold on_completion, bind, get.
  destruct (truthy (timeout cfg)) eqn:Hto.
  - destruct Hts as (tm & Hts & Hsd). rewrite Hsd. cbn.
    split; [reflexivity |]. split; [exact Hp |]. split; [exact Hw |]. split.
    + intros Hno. congruence.
    + state_fields. rewrite timer_state_snoc, Hts. cbn.
      now rewrite Nat.eqb_refl.
  - destruct (Hfree Hto) as [Hsd Hall]. rewrite Hsd. cbn.
    split; [reflexivity |]. split; [exact Hp |]. split; [exact Hw |].
    split; [exact Hfree | exact Hts].
Qed.

Lemma at_rest_emit ev st :
  match ev with EvSleep _ | EvJitter _ | EvYield => True | _ => False end ->
  at_rest cfg st -> at_rest cfg (emit ev st).
Proof.
  intros Hev [[created Hb] Hfree].
  split.
  - exists created. state_fields. rewrite timer_state_snoc, Hb.
    now destruct ev.
  - apply timer_free_emit; [now destruct ev | exact Hfree].
Qed.

(** Lines 202-209: [communicate] under [finally: on_completion]. *)
Lemma triple_guarded k :
  (forall errno, run w k <> SpawnFails errno) ->
  hoare (in_round cfg k (truthy (timeout cfg)))
    (try_finally
       (let! r := communicate w cfg k in
        let! _ := watch_elapsed w in
        ret r)
       (on_completion k))
    (fun r st =>
       in_round cfg k false st /\
       match r with
       | Ok (stdout, stderr, returncode) =>
           run w k = Exits stdout stderr returncode
       | Raise e => exists errno, e = OSError errno /\
                                  run w k = CommunicateFails errno
       | Diverged => False
       end).
Proof.
  intros Hspawn.
  apply hoare_try_finally with
    (R := fun r st =>
       in_round cfg k (truthy (timeout cfg)) st /\
       match r with
       | Ok (stdout, stderr, returncode) =>
           run w k = Exits stdout stderr returncode
       | Raise e => exists errno, e = OSError errno /\
                                  run w k = CommunicateFails errno
       | Diverged => False
       end).
  - eapply hoare_bind.
    + eapply hoare_conseq; [| apply (triple_communicate k) |];
        [intros st Hin; split; [exact Hin | exact Hspawn] |].
      intros r st H. exact H.
    + intros r0. eapply hoare_bind with
        (R := fun r st => (exists e, r = Ok e) /\
                in_round cfg k (truthy (timeout cfg)) st /\
                let '(stdout, stderr, returncode) := r0 in
                run w k = Exits stdout stderr returncode).
      * intros st [Hin Hrun].
        destruct (triple_watch_elapsed k _ st Hin) as [He Hin'].
        split; [exact He |]. split; [exact Hin' | exact Hrun].
      * intros e st (_ & Hin & Hrun). cbn. split; [exact Hin | exact Hrun].
      * intros e st ([e' He'] & _). discriminate.
      * intros st ([e' He'] & _). discriminate.
    + intros e st H. exact H.
    + intros st H. exact H.
  - intros r Hr st [Hin Hpure].
    destruct (triple_on_completion k st Hin) as [Hok Hin'].
    split; [exact Hok |]. split; [exact Hin' | exact Hpure].
  - intros st [_ []].
Qed.

(** Lines 211-217 do not touch the state. *)
Lemma check_result_outcome k stdout stderr returncode st :
  run w k = Exits stdout stderr returncode ->
  snd (check_result cfg cmd (stdout, stderr, returncode) st) = st /\
  body_outcome w cfg cmd k
    (fst (check_result cfg cmd (stdout, stderr, returncode) st)).
Proof.
  intros Hrun. unfold check_result.
  destruct (ignore_exit_code cfg) eqn:Hign; cbn.
  - split; [reflexivity |]. exists returncode. split; [exact Hrun | now left].
  - destruct (py_in returncode (check_exit_code cfg)) as [[|] |] eqn:Hin; cbn;
      (split; [reflexivity |]).
    + exists returncode. split; [exact Hrun | now right].
    + split; [reflexivity |]. split; [exact Hrun |]. now split.
    + right. split; [exact Hign |].
      unfold py_in in *. now destruct (check_exit_code cfg).
Qed.

(** Lines 183-217: the guarded part of a round. *)
Lemma triple_body k :
  hoare (fun st => popen_calls st = k /\ at_rest cfg st /\ watch_running st)
    (let! obj := Popen w cmd in
     let! _ := on_execute cfg obj in
     let! r := try_finally
                 (let! r := communicate w cfg obj in
                  let! _ := watch_elapsed w in
                  ret r)
                 (on_completion obj) in
     check_result cfg cmd r)
    (fun r st => popen_calls st = S k /\ at_rest cfg st /\
                 body_outcome w cfg cmd k r).
Proof.
  eapply hoare_bind; [apply (triple_Popen k) | | |].
  - intros obj st (Hobj & Hspawn & Hin). subst obj. revert st Hin.
    change (hoare (in_round cfg k false)
              (let! _ := on_execute cfg k in
               let! r := try_finally
                           (let! r := communicate w cfg k in
                            let! _ := watch_elapsed w in
                            ret r)
                           (on_completion k) in
               check_result cfg cmd r)
              (fun r st => popen_calls st = S k /\ at_rest cfg st /\
                           body_outcome w cfg cmd k r)).
    eapply hoare_bind; [apply (triple_on_execute k) | | |].
    + intros []. eapply hoare_bind; [apply (triple_guarded k Hspawn) | | |].
      * intros [[stdout stderr] returncode] st [Hin Hrun].
        destruct (check_result_outcome k stdout stderr returncode st Hrun)
          as [-> Hout].
        destruct (in_round_at_rest k st Hin) as [Hp Hrest].
        split; [exact Hp | split; [exact Hrest | exact Hout]].
      * intros e st [Hin (errno & -> & Hrun)].
        destruct (in_round_at_rest k st Hin) as [Hp Hrest].
        split; [exact Hp | split; [exact Hrest |]]. now right.
      * intros st [_ []].
    + intros e st (-> & Hill & Hin).
      destruct (in_round_at_rest k st Hin) as [Hp Hrest].
      split; [exact Hp | split; [exact Hrest | exact Hill]].
    + intros st [].
  - intros e st ((errno & -> & Hrun) & Hp & Hrest).
    split; [exact Hp | split; [exact Hrest |]]. now left.
  - intros st [].
Qed.

(** Lines 218-241: the [except] clause. *)
Lemma triple_on_failure k remaining e :
  hoare (fun st => popen_calls st = S k /\ at_rest cfg st /\
                   body_outcome w cfg cmd k (Raise e))
    (on_failure w cfg remaining e)
    (fun r st => popen_calls st = S k /\ at_rest cfg st /\
                 round_outcome w cfg cmd k remaining r).
Proof.
  intros st (Hp & Hrest & Hout).
  assert (Hretry :
            failed w cfg k ->
            (remaining = 0 ->
             round_outcome w cfg cmd k remaining (Raise e)) ->
            let m := (if remaining =? 0 then raise e
                      else
                        let! _ := (if truthy (delay_on_retry cfg)
                                   then jitter_sleep w else ret tt) in
                        ret (None : option (string * string))) in
            popen_calls (snd (m st)) = S k /\ at_rest cfg (snd (m st)) /\
            round_outcome w cfg cmd k remaining (fst (m st))).
  { intros Hfailed Hlast. cbv zeta.
    destruct (remaining =? 0) eqn:Hrem.
    - apply Z.eqb_eq in Hrem. cbn.
      split; [exact Hp | split; [exact Hrest | exact (Hlast Hrem)]].
    - apply Z.eqb_neq in Hrem. unfold bind, jitter_sleep, ret.
      destruct (truthy (delay_on_retry cfg)); cbn.
      + split; [exact Hp |]. split; [| now split].
        apply at_rest_emit; [exact I |].
        destruct Hrest as [Hb Hfree]. split; [exact Hb | exact Hfree].
      + split; [exact Hp | split; [exact Hrest | now split]]. }
  unfold on_failure.
  destruct e as [msg | msg | | name | errno | unknown | stdout stderr returncode c];
    cbn in Hout; try contradiction.
  - cbn. split; [exact Hp | split; [exact Hrest | exact Hout]].
  - apply Hretry.
    + destruct Hout as [Hrun | Hrun]; [left | right; left]; eauto.
    + intros Hrem. cbn. now split.
  - destruct Hout as (-> & Hrun & Hrej). apply Hretry.
    + right. right. eauto.
    + intros Hrem. cbn. repeat split; auto; apply Hrej.
Qed.

Lemma triple_attempt k remaining :
  hoare (fun st => popen_calls st = k /\ at_rest cfg st /\ watch_running st)
    (attempt w cfg cmd remaining)
    (fun r st => popen_calls st = S k /\ at_rest cfg st /\
                 round_outcome w cfg cmd k remaining r).
Proof.
  unfold attempt.
  apply hoare_try_finally with
    (R := fun r st => popen_calls st = S k /\ at_rest cfg st /\
                      round_outcome w cfg cmd k remaining r).
  - eapply hoare_try_except; [apply (triple_body k) | | |].
    + intros e. apply triple_on_failure.
    + intros [[stdout stderr] |] st (Hp & Hrest & Hout);
        [| contradiction].
      split; [exact Hp | split; [exact Hrest | exact Hout]].
    + intros st (_ & _ & []).
  - intros r Hr st (Hp & Hrest & Hout). cbn.
    split; [reflexivity |]. split; [exact Hp |].
    split; [now apply at_rest_emit | exact Hout].
  - intros st (_ & _ & []).
Qed.

(** One round, from any state between rounds: exactly one call of [Popen],
    and an answer about the process it asked for. *)
Lemma triple_iteration k remaining :
  hoare (fun st => popen_calls st = k /\ at_rest cfg st)
    (iteration w cfg cmd remaining)
    (fun r st => popen_calls st = S k /\ at_rest cfg st /\
                 round_outcome w cfg cmd k remaining r).
Proof.
  unfold iteration. eapply hoare_bind; [apply (triple_watch_restart k) | | |].
  - intros []. eapply hoare_conseq; [| apply (triple_attempt k remaining) |].
    + intros st (_ & Hp & Hrest & Hw). auto.
    + intros r st H. exact H.
  - intros e st (He & _). discriminate.
  - intros st (He & _). discriminate.
Qed.

(** The whole loop, from any state between rounds. *)
Lemma attempts_loop_any_world (fuel : nat) :
  forall (n : Z) (st : state),
    (Z.to_nat n < fuel)%nat -> at_rest cfg st ->
    at_rest cfg (snd (attempts_loop w cfg cmd fuel n st)) /\
    call_outcome w cfg cmd (popen_calls st) n
      (popen_calls (snd (attempts_loop w cfg cmd fuel n st)))
      (fst (attempts_loop w cfg cmd fuel n st)).
Proof.
  induction fuel as [| fuel IH]; intros n st Hfuel Hrest; [lia |].
  rewrite attempts_loop_S. destruct (0 <? n) eqn:Hpos.
  - apply Z.ltb_lt in Hpos. unfold bind.
    pose proof (triple_iteration (popen_calls st) (n - 1) st
                  (conj eq_refl Hrest)) as Hround.
    destruct (iteration w cfg cmd (n - 1) st)
      as [[[[stdout stderr] |] | e |] st1];
      cbn [fst snd] in Hround; destruct Hround as (Hp & Hrest1 & Hout).
    + cbn. split; [exact Hrest1 |]. rewrite Hp.
      destruct Hout as (returncode & Hrun & Hacc).
      split; [intros j; lia |]. split; [lia |]. split; [lia |].
      exists (popen_calls st), returncode. auto.
    + destruct Hout as [Hrem Hfailed].
      destruct (IH (n - 1) st1 ltac:(lia) Hrest1) as [Hrest' Hcall].
      split; [exact Hrest' |]. rewrite Hp in Hcall.
      destruct Hcall as (Hfail & Hle & Hbound & Hres).
      split; [| split; [lia | split; [lia |]]].
      * intros j Hj Hlt.
        destruct (Nat.eq_dec j (popen_calls st)) as [-> | Hne];
          [exact Hfailed | apply Hfail; lia].
      * destruct (fst _) as [[| stdout stderr] | e |]; [lia | | | exact Hres].
        -- destruct Hres as (j & returncode & Hc & Hj & Hrest2).
           exists j, returncode. split; [exact Hc |]. split; [lia | exact Hrest2].
        -- destruct e as [msg | msg | | name | errno | unknown | so se rc c];
             try exact Hres.
           ++ split; [lia | apply Hres].
           ++ destruct Hres as (j & Hc & Hj & Hn & Hrun).
              exists j. split; [exact Hc |]. split; [lia |]. split; [lia |].
              exact Hrun.
           ++ destruct Hres as (j & Hc & Hj & Hn & Hrun).
              exists j. split; [exact Hc |]. split; [lia |]. split; [lia |].
              exact Hrun.
    + cbn. split; [exact Hrest1 |]. rewrite Hp.
      split; [intros j; lia |]. split; [lia |]. split; [lia |].
      destruct e as [msg | msg | | name | errno | unknown | so se rc c];
        cbn in Hout; try contradiction.
      * split; [lia | exact Hout].
      * destruct Hout as [Hrem Hrun]. exists (popen_calls st).
        split; [reflexivity |]. split; [lia |]. split; [lia | exact Hrun].
      * destruct Hout as (Hrem & Hc & Hrun). exists (popen_calls st).
        split; [reflexivity |]. split; [lia |]. split; [lia |].
        split; [exact Hc | exact Hrun].
    + contradiction.
  - apply Z.ltb_ge in Hpos. cbn. split; [exact Hrest |].
    split; [intros j; lia |]. split; [lia |]. split; [lia |]. split; [lia | reflexivity].
Qed.

End AnyWorld.

Lemma initial_state_at_rest (cfg : config) : at_rest cfg initial_state.
Proof.
  split; [now exists None |]. intros _. split; [reflexivity | constructor].
Qed.

(** Every call whose keyword arguments are accepted and whose [attempts] is
    a number. *)
Lemma execute_any_world (w : world) (cmd : list string)
    (kwargs : gmap string value) (cfg : config) (n : Z) :
  parse_kwargs kwargs = Ok cfg ->
  as_num (attempts cfg) = Some n ->
  at_rest cfg (snd (execute w cmd kwargs)) /\
  call_outcome w cfg cmd 0 n
    (popen_calls (snd (execute w cmd kwargs)))
    (fst (execute w cmd kwargs)).
Proof.
  intros Hparse Hn.
  rewrite (execute_accepted w cmd kwargs cfg n Hparse Hn).
  apply (attempts_loop_any_world w cfg cmd (S (Z.to_nat n)) n
           initial_state); [lia | apply initial_state_at_rest].
Qed.

(** X14.  Whatever the processes do, when [execute] returns output it is
    the captured output of the last process it created, that process exited
    with a code the configuration accepts, every process before it failed
    (could not be created, failed in [communicate], or exited with a
    rejected code), and no more than [attempts] processes were asked for. *)
Theorem execute_returns_accepted_output
    (w : world) (cmd : list string)
    (kwargs : gmap string value) (cfg : config) (n : Z)
    (stdout stderr : string) :
  parse_kwargs kwargs = Ok cfg ->
  as_num (attempts cfg) = Some n ->
  fst (execute w cmd kwargs) = Ok (ReturnedOutput stdout stderr) ->
  exists j returncode,
    popen_calls (snd (execute w cmd kwargs)) = S j /\
    Z.of_nat (S j) <= n /\
    run w j = Exits stdout stderr returncode /\
    accepted cfg returncode /\
    forall i, (i < j)%nat -> failed w cfg i.
Proof.
  intros Hparse Hn Hret.
  destruct (execute_any_world w cmd kwargs cfg n Hparse Hn)
    as (_ & Hfail & _ & Hbound & Hres).
  rewrite Hret in Hres. destruct Hres as (j & returncode & Hc & _ & Hrun & Hacc).
  exists j, returncode. rewrite Hc in *.
  split; [reflexivity |]. split; [lia |]. split; [exact Hrun |].
  split; [exact Hacc |]. intros i Hi. apply Hfail; lia.
Qed.

(** The second run of a command is the first to exit with 0. *)
Lemma execute_returns_accepted_output_witness :
  let w := {| run := fun k => match k with
                              | O => Exits "" "busy" 1
                              | S _ => Exits "done" "" 0
                              end;
              timer_expires := fun _ => false;
              randint := fun _ => 20;
              clock := fun _ => 0%Q |} in
  exists j returncode,
    popen_calls (snd (execute w ["job"] (<["attempts" := VInt 3]> ∅)))
    = S j /\
    Z.of_nat (S j) <= 3 /\
    run w j = Exits "done" "" returncode /\
    accepted {| interval := VInt 1; backoff_rate := VInt 2; cwd := VNone;
                process_input := VNone; env_variables := VNone;
                check_exit_code := VList [0]; ignore_exit_code := false;
                delay_on_retry := VBool false; attempts := VInt 3;
                shell := VBool false; loglevel := VInt 10; preexec_fn := VNone;
                timeout := VNone |} returncode /\
    forall i, (i < j)%nat ->
      failed w
        {| interval := VInt 1; backoff_rate := VInt 2; cwd := VNone;
           process_input := VNone; env_variables := VNone;
           check_exit_code := VList [0]; ignore_exit_code := false;
           delay_on_retry := VBool false; attempts := VInt 3;
           shell := VBool false; loglevel := VInt 10; preexec_fn := VNone;
           timeout := VNone |} i.
Proof.
  cbv zeta.
  apply (execute_returns_accepted_output _ ["job"]
           (<["attempts" := VInt 3]> ∅) _ 3 "done" "").
  - vm_compute. reflexivity.
  - reflexivity.
  - vm_compute. reflexivity.
Defined.

(** X15.  Whatever the processes do, a [ProcessExecutionError] or an
    [OSError] comes out of [execute] only when all [attempts] processes
    have been asked for and every one of them failed, and it is the error
    of the last one: its output, its rejected exit code and the command;
    or the [errno] of its creation or of [communicate]. *)
Theorem execute_raises_for_last_attempt
    (w : world) (cmd : list string)
    (kwargs : gmap string value) (cfg : config) (n : Z) :
  parse_kwargs kwargs = Ok cfg ->
  as_num (attempts cfg) = Some n ->
  (forall stdout stderr returncode c,
     fst (execute w cmd kwargs)
     = Raise (ProcessExecutionError stdout stderr returncode c) ->
     c = cmd /\
     exists j,
       popen_calls (snd (execute w cmd kwargs)) = S j /\
       Z.of_nat (S j) = n /\
       run w j = Exits stdout stderr returncode /\
       rejected cfg returncode /\
       forall i, (i < j)%nat -> failed w cfg i) /\
  (forall errno,
     fst (execute w cmd kwargs) = Raise (OSError errno) ->
     exists j,
       popen_calls (snd (execute w cmd kwargs)) = S j /\
       Z.of_nat (S j) = n /\
       (run w j = SpawnFails errno \/ run w j = CommunicateFails errno) /\
       forall i, (i < j)%nat -> failed w cfg i).
Proof.
  intros Hparse Hn.
  destruct (execute_any_world w cmd kwargs cfg n Hparse Hn)
    as (_ & Hfail & _ & _ & Hres).
  split.
  - intros stdout stderr returncode c Hraise. rewrite Hraise in Hres.
    destruct Hres as (j & Hc & _ & Hcalls & Hcmd & Hrun & Hrej).
    split; [exact Hcmd |]. exists j. rewrite Hc in *.
    split; [reflexivity |]. split; [lia |]. split; [exact Hrun |].
    split; [exact Hrej |]. intros i Hi. apply Hfail; lia.
  - intros errno Hraise. rewrite Hraise in Hres.
    destruct Hres as (j & Hc & _ & Hcalls & Hrun).
    exists j. rewrite Hc in *. split; [reflexivity |].
    split; [lia |]. split; [exact Hrun |]. intros i Hi. apply Hfail; lia.
Qed.

(** A command that cannot be started, tried twice. *)
Lemma execute_raises_for_last_attempt_witness :
  let w := {| run := fun k => SpawnFails 2;
              timer_expires := fun _ => false;
              randint := fun _ => 20;
              clock := fun _ => 0%Q |} in
  exists j,
    popen_calls (snd (execute w ["nope"] (<["attempts" := VInt 2]> ∅)))
    = S j /\
    Z.of_nat (S j) = 2 /\
    (run w j = SpawnFails 2 \/ run w j = CommunicateFails 2) /\
    forall i, (i < j)%nat ->
      failed w
        {| interval := VInt 1; backoff_rate := VInt 2; cwd := VNone;
           process_input := VNone; env_variables := VNone;
           check_exit_code := VList [0]; ignore_exit_code := false;
           delay_on_retry := VBool false; attempts := VInt 2;
           shell := VBool false; loglevel := VInt 10; preexec_fn := VNone;
           timeout := VNone |} i.
Proof.
  cbv zeta.
  apply (execute_raises_for_last_attempt _ ["nope"]
           (<["attempts" := VInt 2]> ∅) _ 2).
  - vm_compute. reflexivity.
  - reflexivity.
  - vm_compute. reflexivity.
Defined.

(** X16.  Whatever the processes do, [execute] calls [Popen] at most
    [attempts] times, and at least once when [attempts] is 1 or more; it
    returns [None] exactly when [attempts] is below 1. *)
Theorem execute_popen_calls_bounded
    (w : world) (cmd : list string)
    (kwargs : gmap string value) (cfg : config) (n : Z) :
  parse_kwargs kwargs = Ok cfg ->
  as_num (attempts cfg) = Some n ->
  Z.of_nat (popen_calls (snd (execute w cmd kwargs))) <= Z.max 0 n /\
  (1 <= n -> (1 <= popen_calls (snd (execute w cmd kwargs)))%nat) /\
  (fst (execute w cmd kwargs) = Ok ReturnedNone <-> n < 1).
Proof.
  intros Hparse Hn.
  destruct (execute_any_world w cmd kwargs cfg n Hparse Hn)
    as (_ & _ & _ & Hbound & Hres).
  rewrite Nat.sub_0_r in Hbound.
  split; [exact Hbound |]. split.
  - intros Hge.
    destruct (fst (execute w cmd kwargs)) as [[| so se] | e |].
    + lia.
    + destruct Hres as (j & rc & -> & _). lia.
    + destruct e as [msg | msg | | name | errno | unknown | so se rc c];
        try contradiction.
      * lia.
      * destruct Hres as (j & -> & _). lia.
      * destruct Hres as (j & -> & _). lia.
    + contradiction.
  - split.
    + intros Hnone. rewrite Hnone in Hres. lia.
    + intros Hlt.
      now rewrite (execute_no_attempts_returns_none w cmd kwargs cfg n
                     Hparse Hn Hlt).
Qed.

Lemma execute_popen_calls_bounded_witness :
  Z.of_nat (popen_calls
              (snd (execute always_exits_1 ["false"]
                      (<["attempts" := VInt 2]> ∅)))) <= Z.max 0 2 /\
  (1 <= 2 ->
   (1 <= popen_calls
           (snd (execute always_exits_1 ["false"]
                   (<["attempts" := VInt 2]> ∅))))%nat) /\
  (fst (execute always_exits_1 ["false"] (<["attempts" := VInt 2]> ∅))
   = Ok ReturnedNone <-> 2 < 1).
Proof.
  eapply (execute_popen_calls_bounded always_exits_1 ["false"]
            (<["attempts" := VInt 2]> ∅)).
  - vm_compute. reflexivity.
  - reflexivity.
Defined.

(** X17.  Whatever the processes do and however a round ends, the timers
    of a call are in order: a timer is armed only for the process just
    created, the only things that happen while it is armed are its signal
    to that process and its cancellation by [on_completion], and none is
    left armed when [execute] ends.  With no [timeout] there is no timer
    event at all. *)
Theorem execute_timers_bracketed
    (w : world) (cmd : list string)
    (kwargs : gmap string value) (cfg : config) :
  parse_kwargs kwargs = Ok cfg ->
  timers_bracketed (trace (snd (execute w cmd kwargs))) /\
  (truthy (timeout cfg) = false ->
   Forall (fun ev => is_timer_event ev = false)
     (trace (snd (execute w cmd kwargs)))).
Proof.
  intros Hparse.
  assert (Hrest : at_rest cfg (snd (execute w cmd kwargs))).
  { destruct (as_num (attempts cfg)) as [n |] eqn:Hn.
    - apply (execute_any_world w cmd kwargs cfg n Hparse Hn).
    - unfold execute, bind, lift_res. rewrite Hparse. cbn. rewrite Hn.
      apply initial_state_at_rest. }
  destruct Hrest as [Hb Hfree]. split; [exact Hb |].
  intros Hto. apply (Hfree Hto).
Qed.

(** Two attempts under a 5 second timeout; the timer of the first run
    expires before the run ends. *)
Lemma execute_timers_bracketed_witness :
  let w := {| run := fun k => Exits "" "" (match k with O => 1 | S _ => 0 end);
              timer_expires := fun k => match k with O => true | S _ => false end;
              randint := fun _ => 20;
              clock := fun _ => 0%Q |} in
  let kwargs : gmap string value :=
    <["timeout" := VInt 5]> (<["attempts" := VInt 2]> ∅) in
  trace (snd (execute w ["job"] kwargs))
  = [EvPopen 0 ["job"]; EvTimerStart 0 0 (VInt 5); EvTimerCancel 0; EvYield;
     EvPopen 1 ["job"]; EvSleep 2; EvTimerStart 1 1 (VInt 5);
     EvTimerCancel 1; EvYield] /\
  timers_bracketed (trace (snd (execute w ["job"] kwargs))).
Proof.
  cbv zeta. split; [vm_compute; reflexivity |].
  eapply (execute_timers_bracketed _ ["job"]
            (<["timeout" := VInt 5]> (<["attempts" := VInt 2]> ∅))).
  vm_compute. reflexivity.
Defined.

(** ** Processes that cannot be created, and success after failures *)

Section SpawnFailures.

Variable w : world.
Variable cfg : config.
Variable cmd : list string.

(** A round whose process cannot be created: [on_execute] is not reached,
    so nothing is counted and no interval wait is made. *)
Lemma iteration_spawn_fails remaining st errno :
  run w (popen_calls st) = SpawnFails errno ->
  exists st',
    iteration w cfg cmd remaining st
    = ((if remaining =? 0 then Raise (OSError errno) else Ok None), st') /\
    popen_calls st' = S (popen_calls st) /\
    sd_attempt (shared_data st') = sd_attempt (shared_data st) /\
    backoff_view (trace st') = backoff_view (trace st).
Proof.
  intros Hrun.
  destruct (watch_restart_ok w st) as (st0 & Hre & _ & _ & Hp & Hsd & Htr).
  rewrite <- Hp in Hrun.
  assert (HP : Popen w cmd st0 = (Raise (OSError errno), tick_popen st0))
    by (unfold Popen; now rewrite Hrun).
  assert (Hbody :
            (let! obj := Popen w cmd in
             let! _ := on_execute cfg obj in
             let! r := try_finally
                         (let! r := communicate w cfg obj in
                          let! _ := watch_elapsed w in
                          ret r)
                         (on_completion obj) in
             check_result cfg cmd r) st0
            = (Raise (OSError errno), tick_popen st0))
    by (now rewrite (bind_raise _ _ _ _ _ HP)).
  unfold iteration. rewrite (bind_ok _ _ _ _ _ Hre). unfold attempt.
  destruct (remaining =? 0) eqn:Hlast.
  - exists (emit EvYield (tick_popen st0)). split.
    + eapply try_finally_raise; [| reflexivity].
      rewrite (try_except_raise _ _ _ _ _ Hbody).
      unfold on_failure. now rewrite Hlast.
    + state_fields. rewrite backoff_view_app, Hp, Hsd, Htr. cbn.
      now rewrite app_nil_r.
  - destruct (truthy (delay_on_retry cfg)) eqn:Hd.
    + exists (emit EvYield
                (emit (EvJitter (randint w (randint_calls (tick_popen st0))))
                   (tick_randint (tick_popen st0)))).
      split.
      * eapply try_finally_ok; [| reflexivity].
        rewrite (try_except_raise _ _ _ _ _ Hbody).
        unfold on_failure. rewrite Hlast, Hd. reflexivity.
      * state_fields. rewrite !backoff_view_app, Hp, Hsd, Htr. cbn.
        now rewrite !app_nil_r.
    + exists (emit EvYield (tick_popen st0)). split.
      * eapply try_finally_ok; [| reflexivity].
        rewrite (try_except_raise _ _ _ _ _ Hbody).
        unfold on_failure. rewrite Hlast, Hd. reflexivity.
      * state_fields. rewrite backoff_view_app, Hp, Hsd, Htr. cbn.
        now rewrite app_nil_r.
Qed.

Variable errno_of : nat -> Z.
Hypothesis Hruns : forall k, run w k = SpawnFails (errno_of k).

Lemma attempts_loop_spawn_failures (n : nat) :
  forall (fuel : nat) (st : state),
    (n < fuel)%nat ->
    exists st',
      attempts_loop w cfg cmd fuel (Z.of_nat (S n)) st
      = (Raise (OSError (errno_of (popen_calls st + n)%nat)), st') /\
      popen_calls st' = (popen_calls st + S n)%nat /\
      sd_attempt (shared_data st') = sd_attempt (shared_data st) /\
      backoff_view (trace st') = backoff_view (trace st).
Proof.
  induction n as [| n IH]; intros fuel st Hfuel;
    (destruct fuel as [| fuel]; [lia |]).
  - destruct (iteration_spawn_fails 0 st _ (Hruns _))
      as (st' & Hit & Hp & Ha & Hv).
    exists st'. rewrite attempts_loop_S.
    change (0 <? Z.of_nat 1) with true. change (Z.of_nat 1 - 1) with 0.
    change (0 =? 0) with true in Hit. cbv iota.
    rewrite (bind_raise _ _ _ _ _ Hit), Nat.add_0_r.
    repeat split; [lia | exact Ha | exact Hv].
  - destruct (iteration_spawn_fails (Z.of_nat (S n)) st _ (Hruns _))
      as (st1 & Hit & Hp & Ha & Hv).
    destruct (IH fuel st1 ltac:(lia)) as (st' & Hloop & Hp' & Ha' & Hv').
    exists st'. rewrite attempts_loop_S.
    replace (0 <? Z.of_nat (S (S n))) with true
      by (symmetry; apply Z.ltb_lt; lia).
    replace (Z.of_nat (S (S n)) - 1) with (Z.of_nat (S n)) by lia.
    replace (Z.of_nat (S n) =? 0) with false in Hit
      by (symmetry; apply Z.eqb_neq; lia).
    rewrite (bind_ok _ _ _ _ _ Hit), Hloop, Hp', Ha', Hv', Hp, Ha, Hv.
    replace (S (popen_calls st) + n)%nat with (popen_calls st + S n)%nat by lia.
    repeat split. lia.
Qed.

End SpawnFailures.

(** X18.  When the command cannot be created on any attempt ([Popen]
    raises [OSError] each time), [execute] with [N >= 1] attempts calls
    [Popen] exactly [N] times and raises the [OSError] of the last call.
    [on_execute] is never reached: the attempt counter stays at 0 and no
    interval wait is made between the attempts, whatever [interval] is. *)
Theorem execute_spawn_failures_never_wait
    (w : world) (cmd : list string)
    (kwargs : gmap string value) (cfg : config) (N : nat)
    (errno_of : nat -> Z) :
  parse_kwargs kwargs = Ok cfg ->
  as_num (attempts cfg) = Some (Z.of_nat (S N)) ->
  (forall k, run w k = SpawnFails (errno_of k)) ->
  fst (execute w cmd kwargs) = Raise (OSError (errno_of N)) /\
  popen_calls (snd (execute w cmd kwargs)) = S N /\
  sd_attempt (shared_data (snd (execute w cmd kwargs))) = 0 /\
  backoff_view (trace (snd (execute w cmd kwargs))) = [].
Proof.
  intros Hparse Hn Hruns.
  rewrite (execute_accepted w cmd kwargs cfg _ Hparse Hn).
  destruct (attempts_loop_spawn_failures w cfg cmd errno_of Hruns N
              (S (Z.to_nat (Z.of_nat (S N)))) initial_state ltac:(lia))
    as (st' & -> & Hp & Ha & Hv).
  cbn [fst snd]. rewrite Hp, Ha, Hv. repeat split.
Qed.

(** A missing executable, tried three times with the default interval. *)
Lemma execute_spawn_failures_never_wait_witness :
  let w := {| run := fun k => SpawnFails 2;
              timer_expires := fun _ => false;
              randint := fun _ => 20;
              clock := fun _ => 0%Q |} in
  fst (execute w ["nope"] (<["attempts" := VInt 3]> ∅))
  = Raise (OSError 2) /\
  popen_calls (snd (execute w ["nope"] (<["attempts" := VInt 3]> ∅)))
  = 3%nat /\
  sd_attempt
    (shared_data (snd (execute w ["nope"] (<["attempts" := VInt 3]> ∅))))
  = 0 /\
  backoff_view
    (trace (snd (execute w ["nope"] (<["attempts" := VInt 3]> ∅)))) = [].
Proof.
  cbv zeta.
  eapply (execute_spawn_failures_never_wait _ ["nope"]
            (<["attempts" := VInt 3]> ∅) _ 2 (fun _ => 2)).
  - vm_compute. reflexivity.
  - reflexivity.
  - intros k. reflexivity.
Defined.

Section ThenAccepted.

Variable w : world.
Variable cfg : config.
Variable cmd : list string.
Hypothesis Hnum : numeric_wait cfg.

Lemma attempts_loop_then_accepted (j : nat) :
  forall (fuel : nat) (n : Z) (st : state) stdout stderr returncode,
    Z.of_nat j < n -> (Z.to_nat n < fuel)%nat ->
    (forall i, (i < j)%nat ->
       exists so se rc,
         run w (popen_calls st + i)%nat = Exits so se rc /\ rejected cfg rc) ->
    run w (popen_calls st + j)%nat = Exits stdout stderr returncode ->
    accepted cfg returncode ->
    exists st',
      attempts_loop w cfg cmd fuel n st
      = (Ok (ReturnedOutput stdout stderr), st') /\
      popen_calls st' = (popen_calls st + S j)%nat /\
      backoff_view (trace st')
      = backoff_view (trace st)
        ++ flat_map
             (fun i => EvPopen (popen_calls st + i)%nat cmd
                       :: on_execute_sleep cfg
                            (sd_attempt (shared_data st) + Z.of_nat i))
             (seq 0 (S j)).
Proof.
  induction j as [| j IH];
    intros fuel n st stdout stderr returncode Hlt Hfuel Hrej Hrun Hacc;
    (destruct fuel as [| fuel]; [lia |]); rewrite attempts_loop_S;
    (replace (0 <? n) with true by (symmetry; apply Z.ltb_lt; lia)).
  - rewrite Nat.add_0_r in Hrun.
    destruct (iteration_accepted w cfg cmd (n - 1) st _ _ _
                (fun _ => Hnum) Hrun Hacc) as (st' & Hit & Hp & _ & Hv).
    exists st'. rewrite (bind_ok _ _ _ _ _ Hit). cbn [seq flat_map].
    rewrite Nat.add_0_r, Z.add_0_r, app_nil_r.
    repeat split; [lia | exact Hv].
  - destruct (Hrej 0%nat ltac:(lia)) as (so & se & rc & Hrun0 & Hrej0).
    rewrite Nat.add_0_r in Hrun0.
    destruct (iteration_rejected w cfg cmd (n - 1) st _ _ _
                (fun _ => Hnum) Hrun0 Hrej0) as (st1 & Hit & Hp & Ha & Hv).
    replace (n - 1 =? 0) with false in Hit
      by (symmetry; apply Z.eqb_neq; lia).
    destruct (IH fuel (n - 1) st1 stdout stderr returncode)
      as (st' & Hloop & Hp' & Hv'); [lia | lia | | | exact Hacc |].
    + intros i Hi. rewrite Hp.
      replace (S (popen_calls st) + i)%nat with (popen_calls st + S i)%nat
        by lia.
      apply Hrej. lia.
    + rewrite Hp.
      replace (S (popen_calls st) + j)%nat with (popen_calls st + S j)%nat
        by lia.
      exact Hrun.
    + exists st'. rewrite (bind_ok _ _ _ _ _ Hit), Hloop, Hp', Hv', Hv, Hp, Ha.
      repeat split; [lia |].
      rewrite <- app_assoc. f_equal.
      change (seq 0 (S (S j))) with (0%nat :: seq 1 (S j)).
      cbn [flat_map]. rewrite flat_map_seq_shift.
      rewrite Nat.add_0_r, Z.add_0_r. cbn [app]. f_equal.
      f_equal. apply flat_map_ext. intros i.
      replace (S (popen_calls st) + i)%nat with (popen_calls st + S i)%nat
        by lia.
      replace (sd_attempt (shared_data st) + 1 + Z.of_nat i)
        with (sd_attempt (shared_data st) + Z.of_nat (S i)) by lia.
      reflexivity.
Qed.

End ThenAccepted.

(** X19.  When the first [j] processes exit with rejected codes and the
    next one with an accepted code, and more than [j] attempts are allowed,
    [execute] returns the output of that process after exactly [j + 1]
    calls of [Popen]: no attempt is made after the first success.  Each
    process after the first was followed by the wait of [on_execute]. *)
Theorem execute_stops_at_first_success
    (w : world) (cmd : list string)
    (kwargs : gmap string value) (cfg : config) (n : Z) (j : nat)
    (stdout stderr : string) (returncode : Z) :
  parse_kwargs kwargs = Ok cfg ->
  as_num (attempts cfg) = Some n ->
  numeric_wait cfg ->
  Z.of_nat j < n ->
  (forall i, (i < j)%nat ->
     exists so se rc, run w i = Exits so se rc /\ rejected cfg rc) ->
  run w j = Exits stdout stderr returncode ->
  accepted cfg returncode ->
  fst (execute w cmd kwargs) = Ok (ReturnedOutput stdout stderr) /\
  popen_calls (snd (execute w cmd kwargs)) = S j /\
  backoff_view (trace (snd (execute w cmd kwargs)))
  = flat_map (fun i => EvPopen i cmd :: on_execute_sleep cfg (Z.of_nat i))
      (seq 0 (S j)).
Proof.
  intros Hparse Hn Hnum Hlt Hrej Hrun Hacc.
  rewrite (execute_accepted w cmd kwargs cfg n Hparse Hn).
  destruct (attempts_loop_then_accepted w cfg cmd Hnum j
              (S (Z.to_nat n)) n initial_state stdout stderr returncode)
    as (st' & Hloop & Hp & Hv);
    [lia | lia | exact Hrej | exact Hrun | exact Hacc |].
  rewrite Hloop. cbn [fst snd].
  split; [reflexivity | split; [exact Hp | exact Hv]].
Qed.

(** The second run is the first to exit with 0; five attempts allowed. *)
Lemma execute_stops_at_first_success_witness :
  let w := {| run := fun k => match k with
                              | O => Exits "" "busy" 1
                              | S _ => Exits "done" "" 0
                              end;
              timer_expires := fun _ => false;
              randint := fun _ => 20;
              clock := fun _ => 0%Q |} in
  let cfg :=
    {| interval := VInt 1; backoff_rate := VInt 2; cwd := VNone;
       process_input := VNone; env_variables := VNone;
       check_exit_code := VList [0]; ignore_exit_code := false;
       delay_on_retry := VBool false; attempts := VInt 5;
       shell := VBool false; loglevel := VInt 10; preexec_fn := VNone;
       timeout := VNone |} in
  fst (execute w ["job"] (<["attempts" := VInt 5]> ∅))
  = Ok (ReturnedOutput "done" "") /\
  popen_calls (snd (execute w ["job"] (<["attempts" := VInt 5]> ∅)))
  = 2%nat /\
  backoff_view (trace (snd (execute w ["job"] (<["attempts" := VInt 5]> ∅))))
  = flat_map (fun i => EvPopen i ["job"] :: on_execute_sleep cfg (Z.of_nat i))
      (seq 0 2).
Proof.
  cbv zeta.
  apply (execute_stops_at_first_success _ ["job"]
           (<["attempts" := VInt 5]> ∅) _ 5 1 "done" "" 0).
  - vm_compute. reflexivity.
  - reflexivity.
  - intros _. split; eexists; reflexivity.
  - lia.
  - intros i Hi. assert (i = 0%nat) as -> by lia.
    exists "", "busy", 1. repeat split.
  - reflexivity.
  - right. reflexivity.
Defined.

(** ** A [check_exit_code] that is no list *)

Section NotAList.

Variable w : world.
Variable cfg : config.
Variable cmd : list string.

Lemma iteration_check_type_error remaining st stdout stderr returncode :
  (sd_attempt (shared_data st) <> 0 -> numeric_wait cfg) ->
  run w (popen_calls st) = Exits stdout stderr returncode ->
  ignore_exit_code cfg = false ->
  py_in returncode (check_exit_code cfg) = None ->
  exists st',
    iteration w cfg cmd remaining st = (Raise TypeError, st') /\
    popen_calls st' = S (popen_calls st).
Proof.
  intros Hnum Hrun Hign Hin.
  destruct (watch_restart_ok w st) as (st0 & Hre & Hs & Ha & Hp & Hsd & Htr).
  rewrite <- Hp in Hrun. rewrite <- Hsd in Hnum.
  destruct (guarded_part_exits w cfg cmd st0 _ _ _ Hs Ha Hnum Hrun)
    as (st1 & Hbody & Hp1 & _).
  assert (Hcheck : check_result cfg cmd (stdout, stderr, returncode) st1
                   = (Raise TypeError, st1))
    by (unfold check_result; now rewrite Hign, Hin).
  rewrite <- Hbody in Hcheck.
  exists (emit EvYield st1). split.
  - unfold iteration. rewrite (bind_ok _ _ _ _ _ Hre). unfold attempt.
    eapply try_finally_raise; [| reflexivity].
    now rewrite (try_except_raise _ _ _ _ _ Hcheck).
  - state_fields. now rewrite Hp1, Hp.
Qed.

End NotAList.

(** X20.  A [check_exit_code] that is neither a [bool], an [int] nor a
    list ([None], a string) is not refused when the options are read: the
    command is run once, then the test of its exit code raises [TypeError],
    which the [except] clause does not catch, so no further attempt is made
    however many are allowed. *)
Theorem check_exit_code_not_a_list_runs_once
    (w : world) (cmd : list string)
    (kwargs : gmap string value) (cfg : config) (n : Z) (v : value)
    (stdout stderr : string) (returncode : Z) :
  parse_kwargs kwargs = Ok cfg ->
  kwargs !! "check_exit_code" = Some v ->
  (v = VNone \/ exists s, v = VStr s) ->
  as_num (attempts cfg) = Some n -> 1 <= n ->
  run w 0%nat = Exits stdout stderr returncode ->
  fst (execute w cmd kwargs) = Raise TypeError /\
  popen_calls (snd (execute w cmd kwargs)) = 1%nat.
Proof.
  intros Hparse Hv Hkind Hn Hge Hrun.
  destruct (parse_kwargs_fields kwargs cfg Hparse) as (_ & _ & Hc & _).
  rewrite Hv in Hc. cbn in Hc.
  assert (Hnorm : ignore_exit_code cfg = false /\
                  forall rc, py_in rc (check_exit_code cfg) = None).
  { destruct Hkind as [-> | [s ->]]; cbn in Hc; injection Hc as -> ->;
      now split. }
  destruct Hnorm as [Hign Hin].
  rewrite (execute_accepted w cmd kwargs cfg n Hparse Hn).
  rewrite attempts_loop_S.
  replace (0 <? n) with true by (symmetry; apply Z.ltb_lt; lia).
  destruct (iteration_check_type_error w cfg cmd (n - 1) initial_state
              stdout stderr returncode)
    as (st' & Hit & Hp); [now intros [] | exact Hrun | exact Hign | apply Hin |].
  rewrite (bind_raise _ _ _ _ _ Hit). split; [reflexivity | exact Hp].
Qed.

Lemma check_exit_code_not_a_list_runs_once_witness :
  fst (execute always_exits_1 ["false"]
         (<["check_exit_code" := VNone]> (<["attempts" := VInt 3]> ∅)))
  = Raise TypeError /\
  popen_calls
    (snd (execute always_exits_1 ["false"]
            (<["check_exit_code" := VNone]> (<["attempts" := VInt 3]> ∅))))
  = 1%nat.
Proof.
  eapply (check_exit_code_not_a_list_runs_once always_exits_1 ["false"]
            (<["check_exit_code" := VNone]> (<["attempts" := VInt 3]> ∅))
            _ 3 VNone).
  - vm_compute. reflexivity.
  - reflexivity.
  - now left.
  - reflexivity.
  - lia.
  - reflexivity.
Defined.
